(** * A2UI agent executor: output recovery and task lifecycle

    A shallow embedding of [remote_agent/agent_executor.py]:
    - [process_llm_output_to_a2ui_parts], which digs a JSON document out of
      the raw text of the model and turns it into message parts;
    - [A2UIAgentExecutor.execute] and [A2UIAgentExecutor.cancel], the
      handler that drives one task through its lifecycle.

    Python values are modelled as they are at run time: a [str] is a list
    of Unicode code points, an [int] is a [Z], lists and dicts keep their
    order.  The [json] module of the Python library is embedded from its
    sources ([json/scanner.py], [json/decoder.py], [json/encoder.py]);
    its accelerated (C) variants compute the same results.

    Not modelled: floating point (a float is kept as the literal it was
    read from, and the operations that need its value are parameters),
    the limits of the interpreter (recursion depth, size of integer
    literals), log output. *)

From Stdlib Require Import List NArith ZArith Lia Bool Ascii String.
Import ListNotations.
Set Warnings "-register-all".
Local Open Scope N_scope.
Local Open Scope list_scope.

(** ** Python strings *)

(** A character is its code point. *)
Definition char : Type := N.
Definition str : Type := list char.

Definition ord (a : ascii) : char := N_of_ascii a.
Arguments ord a%_char.

(** [lit] writes a Python string constant.  A backquote in the argument
    stands for the double quote character (code point 34). *)
Definition lit (s : string) : str :=
  map (fun a => if Ascii.eqb a "`" then 34 else N_of_ascii a)
      (list_ascii_of_string s).
Arguments lit s%_string.

Definition is_char (a : ascii) (c : char) : bool := c =? ord a.
Arguments is_char a%_char c.

Fixpoint str_eqb (a b : str) : bool :=
  match a, b with
  | [], [] => true
  | x :: a', y :: b' => (x =? y) && str_eqb a' b'
  | _, _ => false
  end.

(** [s.startswith(p)], giving what follows the prefix. *)
Fixpoint strip_prefix (p s : str) : option str :=
  match p, s with
  | [], _ => Some s
  | x :: p', y :: s' => if x =? y then strip_prefix p' s' else None
  | _ :: _, [] => None
  end.

(** [sub in s] on two strings. *)
Fixpoint str_contains (sub s : str) : bool :=
  match strip_prefix sub s with
  | Some _ => true
  | None => match s with [] => false | _ :: s' => str_contains sub s' end
  end.

(** The characters [str.isspace] accepts, which [str.strip] removes. *)
Definition isspace (c : char) : bool :=
  ((9 <=? c) && (c <=? 13)) || ((28 <=? c) && (c <=? 32))
  || (c =? 133) || (c =? 160) || (c =? 5760)
  || ((8192 <=? c) && (c <=? 8202))
  || (c =? 8232) || (c =? 8233) || (c =? 8239) || (c =? 8287) || (c =? 12288).

Fixpoint lstrip (s : str) : str :=
  match s with
  | c :: s' => if isspace c then lstrip s' else s
  | [] => []
  end.

Definition rstrip (s : str) : str := rev (lstrip (rev s)).

Definition strip (s : str) : str := rstrip (lstrip s).

(** Decimal digits of an integer, [int.__repr__]. *)
Fixpoint digits_of_pos (fuel : nat) (n : N) (acc : str) : str :=
  match fuel with
  | O => acc
  | S fuel' =>
      let acc' := (48 + n mod 10) :: acc in
      if n / 10 =? 0 then acc' else digits_of_pos fuel' (n / 10) acc'
  end.

Definition int_repr (z : Z) : str :=
  let n := Z.abs_N z in
  let ds := digits_of_pos (S (N.to_nat (N.log2 n))) n [] in
  if (z <? 0)%Z then ord "-" :: ds else ds.

(** ** Python values that JSON can describe *)

Inductive pyval : Type :=
| PNone
| PBool (b : bool)
| PInt (n : Z)
| PFloat (literal : str)     (* the float that float(literal) gives *)
| PStr (s : str)
| PList (items : list pyval)
| PDict (items : list (str * pyval)).

(** A dict with string keys, in insertion order. *)
Definition pydict : Type := list (str * pyval).

Fixpoint dict_get (d : pydict) (k : str) : option pyval :=
  match d with
  | [] => None
  | (k', v) :: d' => if str_eqb k' k then Some v else dict_get d' k
  end.

(** [d[k] = v]: an existing key keeps its place. *)
Fixpoint dict_set (d : pydict) (k : str) (v : pyval) : pydict :=
  match d with
  | [] => [(k, v)]
  | (k', v') :: d' =>
      if str_eqb k' k then (k', v) :: d' else (k', v') :: dict_set d' k v
  end.

(** [dict(pairs)] *)
Definition dict_of_pairs (pairs : list (str * pyval)) : pydict :=
  fold_left (fun d kv => dict_set d (fst kv) (snd kv)) pairs [].

(** ** json.decoder and json.scanner *)

(** Outcome of a scan: a value with the text left after it, a
    [JSONDecodeError] (a [StopIteration] of the scanner ends up as one in
    every caller), or the recursion budget of this model used up. *)
Inductive scan (A : Type) : Type :=
| Done (a : A)
| Fail
| Fuel.
Arguments Done {A} a.
Arguments Fail {A}.
Arguments Fuel {A}.

(** WHITESPACE_STR *)
Definition is_ws (c : char) : bool :=
  is_char " " c || (c =? 9) || (c =? 10) || (c =? 13).

(** [_w(s, end).end()]: skip a run of JSON whitespace. *)
Fixpoint skip_ws (s : str) : str :=
  match s with
  | c :: s' => if is_ws c then skip_ws s' else s
  | [] => []
  end.

Definition is_digit (c : char) : bool := (48 <=? c) && (c <=? 57).

Definition hexval (c : char) : option N :=
  if is_digit c then Some (c - 48)
  else if (97 <=? c) && (c <=? 102) then Some (c - 87)
  else if (65 <=? c) && (c <=? 70) then Some (c - 55)
  else None.

(** [_decode_uXXXX]: four hexadecimal digits. *)
Definition decode_uXXXX (a b c d : char) : option N :=
  match hexval a, hexval b, hexval c, hexval d with
  | Some x, Some y, Some z, Some w => Some (((x * 16 + y) * 16 + z) * 16 + w)
  | _, _, _, _ => None
  end.

(** BACKSLASH *)
Definition BACKSLASH (esc : char) : option char :=
  if esc =? 34 then Some 34
  else if is_char "\" esc then Some (ord "\")
  else if is_char "/" esc then Some (ord "/")
  else if is_char "b" esc then Some 8
  else if is_char "f" esc then Some 12
  else if is_char "n" esc then Some 10
  else if is_char "r" esc then Some 13
  else if is_char "t" esc then Some 9
  else None.

Definition cons_chunk (c : char) (r : option (str * str)) : option (str * str) :=
  match r with
  | Some (content, rest) => Some (c :: content, rest)
  | None => None
  end.

(** [s[end:end + 2] == '\\u'] *)
Definition escape_u_next (s : str) : bool :=
  match s with
  | b :: u :: _ => is_char "\" b && is_char "u" u
  | _ => false
  end.

Definition high_surrogate (uni : N) : bool := (55296 <=? uni) && (uni <=? 56319).
Definition low_surrogate (uni : N) : bool := (56320 <=? uni) && (uni <=? 57343).

(** [py_scanstring(s, end)] with [strict=True], on the text that follows
    the opening quote: the decoded string and the text after the closing
    quote. *)
Fixpoint scanstring (s : str) : option (str * str) :=
  match s with
  | [] => None
  | c :: tl =>
      if c =? 34 then Some ([], tl)
      else if is_char "\" c then
        match tl with
        | [] => None
        | esc :: tl1 =>
            if is_char "u" esc then
              match tl1 with
              | x1 :: x2 :: x3 :: x4 :: tl2 =>
                  match decode_uXXXX x1 x2 x3 x4 with
                  | None => None
                  | Some uni =>
                      if high_surrogate uni && escape_u_next tl2 then
                        match tl2 with
                        | _ :: _ :: y1 :: y2 :: y3 :: y4 :: tl4 =>
                            match decode_uXXXX y1 y2 y3 y4 with
                            | None => None
                            | Some uni2 =>
                                if low_surrogate uni2 then
                                  cons_chunk
                                    (65536 + N.lor (N.shiftl (uni - 55296) 10)
                                                   (uni2 - 56320))
                                    (scanstring tl4)
                                else cons_chunk uni (scanstring tl2)
                            end
                        | _ => None
                        end
                      else cons_chunk uni (scanstring tl2)
                  end
              | _ => None
              end
            else
              match BACKSLASH esc with
              | Some ch => cons_chunk ch (scanstring tl1)
              | None => None
              end
        end
      else if c <? 32 then None
      else cons_chunk c (scanstring tl)
  end.

(** NUMBER_RE, group by group.  [span_digits] is a greedy run of digits. *)
Fixpoint span_digits (s : str) : str * str :=
  match s with
  | c :: s' =>
      if is_digit c then let (d, r) := span_digits s' in (c :: d, r)
      else ([], s)
  | [] => ([], [])
  end.

(** First group: an optional minus sign, then 0 or a digit from 1 to 9
    followed by a run of digits. *)
Definition match_integer (s : str) : option (str * str) :=
  let (sign, s1) :=
    match s with
    | c :: s' => if is_char "-" c then ([c], s') else ([], s)
    | [] => ([], s)
    end in
  match s1 with
  | c :: s' =>
      if is_char "0" c then Some (sign ++ [c], s')
      else if is_digit c then
        let (d, r) := span_digits s' in Some (sign ++ c :: d, r)
      else None
  | [] => None
  end.

(** Second group: a dot and at least one digit; [None] when the group
    matches nothing. *)
Definition match_frac (s : str) : option (str * str) :=
  match s with
  | c :: s' =>
      if is_char "." c then
        match span_digits s' with
        | ([], _) => None
        | (d, r) => Some (c :: d, r)
        end
      else None
  | [] => None
  end.

(** Third group: e or E, an optional sign, at least one digit. *)
Definition match_exp (s : str) : option (str * str) :=
  match s with
  | c :: s' =>
      if is_char "e" c || is_char "E" c then
        let (sign, s1) :=
          match s' with
          | g :: s'' => if is_char "-" g || is_char "+" g then ([g], s'') else ([], s')
          | [] => ([], s')
          end in
        match span_digits s1 with
        | ([], _) => None
        | (d, r) => Some (c :: sign ++ d, r)
        end
      else None
  | [] => None
  end.

(** [NUMBER_RE.match]: the three groups and the text after the match. *)
Definition match_number (s : str) : option (str * option str * option str * str) :=
  match match_integer s with
  | None => None
  | Some (integer, r0) =>
      let (frac, r1) :=
        match match_frac r0 with
        | Some (f, r) => (Some f, r)
        | None => (None, r0)
        end in
      let (exp, r2) :=
        match match_exp r1 with
        | Some (e, r) => (Some e, r)
        | None => (None, r1)
        end in
      Some (integer, frac, exp, r2)
  end.

(** [int(integer)] on a match of the first group. *)
Definition parse_int (integer : str) : Z :=
  let value := fold_left (fun acc c => (acc * 10 + Z.of_N (c - 48))%Z) in
  match integer with
  | c :: ds => if is_char "-" c then (- value ds 0)%Z else value integer 0%Z
  | [] => 0%Z
  end.

Definition or_empty (o : option str) : str :=
  match o with Some x => x | None => [] end.

(** [_scan_once] of [py_make_scanner], given the two parsers of the
    decoder context. *)
Definition scan_value (parse_object parse_array : str -> scan (pyval * str))
    (s : str) : scan (pyval * str) :=
  match s with
  | [] => Fail
  | nextchar :: tl =>
      if nextchar =? 34 then
        match scanstring tl with
        | Some (text, r) => Done (PStr text, r)
        | None => Fail
        end
      else if is_char "{" nextchar then parse_object tl
      else if is_char "[" nextchar then parse_array tl
      else
        match strip_prefix (lit "null") s, strip_prefix (lit "true") s,
              strip_prefix (lit "false") s with
        | Some r, _, _ => Done (PNone, r)
        | None, Some r, _ => Done (PBool true, r)
        | None, None, Some r => Done (PBool false, r)
        | None, None, None =>
            match match_number s with
            | Some (integer, frac, exp, r) =>
                match frac, exp with
                | None, None => Done (PInt (parse_int integer), r)
                | _, _ => Done (PFloat (integer ++ or_empty frac ++ or_empty exp), r)
                end
            | None =>
                match strip_prefix (lit "NaN") s, strip_prefix (lit "Infinity") s,
                      strip_prefix (lit "-Infinity") s with
                | Some r, _, _ => Done (PFloat (lit "nan"), r)
                | None, Some r, _ => Done (PFloat (lit "inf"), r)
                | None, None, Some r => Done (PFloat (lit "-inf"), r)
                | None, None, None => Fail
                end
            end
        end
  end.

(** [JSONArray]: [values_loop] is its [while True] loop, entered at the
    first value. *)
Definition JSONArray (values_loop : str -> list pyval -> scan (pyval * str))
    (s : str) : scan (pyval * str) :=
  match skip_ws s with
  | nextchar :: r =>
      if is_char "]" nextchar then Done (PList [], r)
      else values_loop (skip_ws s) []
  | [] => values_loop [] []
  end.

(** [JSONObject]: [pairs_loop] is its [while True] loop, entered after the
    opening quote of the first key. *)
Definition JSONObject (pairs_loop : str -> list (str * pyval) -> scan (pyval * str))
    (s : str) : scan (pyval * str) :=
  match skip_ws s with
  | nextchar :: r =>
      if is_char "}" nextchar then Done (PDict [], r)
      else if nextchar =? 34 then pairs_loop r []
      else Fail
  | [] => Fail
  end.

Fixpoint scan_once (fuel : nat) (s : str) {struct fuel} : scan (pyval * str) :=
  match fuel with
  | O => Fuel
  | S fuel' =>
      scan_value (JSONObject (pairs_loop fuel')) (JSONArray (values_loop fuel')) s
  end

with values_loop (fuel : nat) (s : str) (values : list pyval) {struct fuel}
    : scan (pyval * str) :=
  match fuel with
  | O => Fuel
  | S fuel' =>
      match scan_once fuel' s with
      | Done (value, r) =>
          match skip_ws r with
          | nextchar :: r' =>
              if is_char "]" nextchar then Done (PList (values ++ [value]), r')
              else if is_char "," nextchar then
                values_loop fuel' (skip_ws r') (values ++ [value])
              else Fail
          | [] => Fail
          end
      | Fail => Fail
      | Fuel => Fuel
      end
  end

with pairs_loop (fuel : nat) (s : str) (pairs : list (str * pyval)) {struct fuel}
    : scan (pyval * str) :=
  match fuel with
  | O => Fuel
  | S fuel' =>
      match scanstring s with
      | None => Fail
      | Some (key, r) =>
          match skip_ws r with
          | colon :: r1 =>
              if is_char ":" colon then
                match scan_once fuel' (skip_ws r1) with
                | Done (value, r2) =>
                    match skip_ws r2 with
                    | nextchar :: r3 =>
                        if is_char "}" nextchar then
                          Done (PDict (dict_of_pairs (pairs ++ [(key, value)])), r3)
                        else if is_char "," nextchar then
                          match skip_ws r3 with
                          | q :: r4 =>
                              if q =? 34 then pairs_loop fuel' r4 (pairs ++ [(key, value)])
                              else Fail
                          | [] => Fail
                          end
                        else Fail
                    | [] => Fail
                    end
                | Fail => Fail
                | Fuel => Fuel
                end
              else Fail
          | [] => Fail
          end
      end
  end.

(** Budget under which the scanner never runs out (see [scan_once_total]). *)
Definition budget (s : str) : nat := 2 * List.length s + 1.

(** [JSONDecoder.raw_decode(s)]: [None] is a [JSONDecodeError]. *)
Definition raw_decode (s : str) : option (pyval * str) :=
  match scan_once (budget s) s with
  | Done r => Some r
  | _ => None
  end.

(** [json.loads(s)] on a [str]. *)
Definition loads (s : str) : option pyval :=
  match s with
  | 65279 :: _ => None
  | _ =>
      match raw_decode (skip_ws s) with
      | Some (obj, r) => match skip_ws r with [] => Some obj | _ :: _ => None end
      | None => None
      end
  end.

(** ** json.encoder, with the default settings of [json.dumps] *)

Definition hex_digit (n : N) : char := if n <? 10 then 48 + n else 87 + n.

(** ['\\u{0:04x}'.format(n)] *)
Definition u_escape (n : N) : str :=
  lit "\u" ++ [hex_digit (n / 4096 mod 16); hex_digit (n / 256 mod 16);
               hex_digit (n / 16 mod 16); hex_digit (n mod 16)].

(** The replacement ESCAPE_ASCII and ESCAPE_DCT give one character. *)
Definition escape_ascii (c : char) : str :=
  if is_char "\" c then lit "\\"
  else if c =? 34 then [ord "\"; 34]
  else if (32 <=? c) && (c <=? 126) then [c]
  else if c =? 8 then lit "\b"
  else if c =? 12 then lit "\f"
  else if c =? 10 then lit "\n"
  else if c =? 13 then lit "\r"
  else if c =? 9 then lit "\t"
  else if c <? 65536 then u_escape c
  else
    let n := c - 65536 in
    u_escape (N.lor 55296 (N.land (N.shiftr n 10) 1023))
    ++ u_escape (N.lor 56320 (N.land n 1023)).

(** [py_encode_basestring_ascii] *)
Definition encode_basestring_ascii (s : str) : str :=
  34 :: flat_map escape_ascii s ++ [34].

(** [sep.join(items)] *)
Fixpoint join (sep : str) (items : list str) : str :=
  match items with
  | [] => []
  | [x] => x
  | x :: rest => x ++ sep ++ join sep rest
  end.

(** ** Messages, tasks and what the handler is given *)

(** [a2a.types.Part], by its root. *)
Inductive Part : Type :=
| TextPart (text : str)
| FilePart (file : pydict)
| DataPart (data : pydict).

(** [a2a.types.Message], [a2a.types.Task]: the fields used here. *)
Record Message : Type := { parts : list Part }.

Record Task : Type := { task_id : str; task_context_id : str }.

(** [a2a_types.TaskState], the members the executor sets. *)
Inductive TaskState : Type := working | completed | failed.

(** What [new_agent_parts_message(parts, context_id, task_id)] builds. *)
Record AgentMessage : Type := {
  agent_parts : list Part;
  agent_context_id : str;
  agent_task_id : str
}.

(** What reaches the event queue: a new task, or the status update that
    [TaskUpdater.update_status] enqueues. *)
Inductive Event : Type :=
| TaskEvent (task : Task)
| StatusUpdate (task_id context_id : str) (state : TaskState)
               (message : option AgentMessage) (final : bool).

(** [RequestContext]: [user_input] is what [get_user_input()] returns,
    [requested_extensions] what the peer asked for. *)
Record RequestContext : Type := {
  user_input : option str;
  message : option Message;
  current_task : option Task;
  context_id : str;
  requested_extensions : list str
}.

(** What a call changes: the event queue and the extensions activated on
    the request context. *)
Record World : Type := {
  event_queue : list Event;
  activated_extensions : list str
}.

(** [google.genai.types.Content] and the events of the ADK runner. *)
Record GenaiPart : Type := { text : option str }.
Record Content : Type := { role : str; content_parts : option (list GenaiPart) }.
Record AdkEvent : Type := { content : option Content }.

(** One run of [Runner.run_async]: the events it yields and, when the run
    ends in an exception, [str(e)]. *)
Record Run : Type := { yielded : list AdkEvent; raised : option str }.

Definition Runner : Type := str -> str -> Content -> Run.

Record A2UIAgentExecutor : Type := { runner : Runner }.

(** The collaborators and builtins that are taken as given. *)
Record Externals : Type := {
  (* Python floats, each given by its literal: repr(x), and the x == y and
     x == n (n an int) that a dict uses on keys *)
  float_repr : str -> str;
  float_eq : str -> str -> bool;
  float_eq_int : str -> Z -> bool;
  (* str(v) for a list or dict v *)
  container_repr : pyval -> str;
  (* a2ui_extension.py, not among the sources: the part made of one
     message record, and the extensions active on the context once
     try_activate_a2ui_extension has run *)
  create_a2ui_part : pyval -> Part;
  try_activate_a2ui_extension : RequestContext -> list str -> list str;
  (* a2a.utils.new_task *)
  new_task : option Message -> Task
}.

(** ** Exceptions and the handler monad *)

Inductive A2AError : Type := UnsupportedOperationError.

Inductive exn : Type :=
| AttributeError
| TypeError
| KeyError
| NameError (name : string)
| ServerError (error : A2AError).

Inductive result (A : Type) : Type :=
| Return (a : A)
| Raise (e : exn).
Arguments Return {A} a.
Arguments Raise {A} e.

Definition bind {A B : Type} (r : result A) (k : A -> result B) : result B :=
  match r with
  | Return a => k a
  | Raise e => Raise e
  end.

(** A handler step: it may raise, and it may change the world. *)
Definition M (A : Type) : Type := World -> result A * World.

Definition ret {A : Type} (a : A) : M A := fun w => (Return a, w).

Definition lift {A : Type} (r : result A) : M A := fun w => (r, w).

Definition mbind {A B : Type} (m : M A) (k : A -> M B) : M B :=
  fun w =>
    match m w with
    | (Return a, w') => k a w'
    | (Raise e, w') => (Raise e, w')
    end.

Declare Scope py_scope.
Delimit Scope py_scope with py.
Notation "x <- c ;; k" := (bind c (fun x => k))
  (at level 61, c at next level, right associativity) : py_scope.
Notation "x <~ c ;; k" := (mbind c (fun x => k))
  (at level 61, c at next level, right associativity) : py_scope.
Notation "c ;;; k" := (mbind c (fun _ => k))
  (at level 61, right associativity) : py_scope.
Local Open Scope py_scope.

(** [event_queue.enqueue_event(event)] *)
Definition enqueue_event (event : Event) : M unit :=
  fun w => (Return tt, {| event_queue := event_queue w ++ [event];
                          activated_extensions := activated_extensions w |}).

(** [TaskUpdater(event_queue, task_id, context_id).update_status(...)] *)
Definition update_status (task : Task) (state : TaskState)
    (message : option AgentMessage) (final : bool) : M unit :=
  enqueue_event (StatusUpdate (task_id task) (task_context_id task) state message final).

Definition new_agent_parts_message (parts : list Part) (context_id task_id : str)
    : AgentMessage :=
  {| agent_parts := parts; agent_context_id := context_id; agent_task_id := task_id |}.

(** ** Operations on values of any type *)

(** [o.get(key, default)] *)
Definition py_get (o : pyval) (key : str) (default : pyval) : result pyval :=
  match o with
  | PDict d => Return (match dict_get d key with Some v => v | None => default end)
  | _ => Raise AttributeError
  end.

(** The items [for item in o] goes through. *)
Definition py_iter (o : pyval) : result (list pyval) :=
  match o with
  | PList items => Return items
  | PDict d => Return (map (fun kv => PStr (fst kv)) d)
  | PStr s => Return (map (fun c => PStr [c]) s)
  | _ => Raise TypeError
  end.

(** [key in o], for a string [key] *)
Definition py_in (key : str) (o : pyval) : result bool :=
  match o with
  | PDict d => Return (match dict_get d key with Some _ => true | None => false end)
  | PList items =>
      Return (existsb (fun x => match x with PStr s => str_eqb s key | _ => false end)
                      items)
  | PStr s => Return (str_contains key s)
  | _ => Raise TypeError
  end.

(** [o[key]], for a string [key] *)
Definition py_item (o : pyval) (key : str) : result pyval :=
  match o with
  | PDict d => match dict_get d key with Some v => Return v | None => Raise KeyError end
  | _ => Raise TypeError
  end.

(** [re.search(r'[\{\[]', s)]: where the match starts. *)
Fixpoint re_search (s : str) : option nat :=
  match s with
  | [] => None
  | c :: s' =>
      if is_char "{" c || is_char "[" c then Some O
      else option_map S (re_search s')
  end.

Fixpoint rfind_from (a : ascii) (s : str) (i found : Z) : Z :=
  match s with
  | [] => found
  | c :: s' => rfind_from a s' (i + 1)%Z (if is_char a c then i else found)
  end.

(** [s.rfind(a)] *)
Definition rfind (a : ascii) (s : str) : Z := rfind_from a s 0%Z (-1)%Z.
Arguments rfind a%_char s.

Section Executor.

Context (ext : Externals).

(** [str(v)] *)
Definition py_str (v : pyval) : str :=
  match v with
  | PNone => lit "None"
  | PBool true => lit "True"
  | PBool false => lit "False"
  | PInt n => int_repr n
  | PFloat x => float_repr ext x
  | PStr s => s
  | PList _ | PDict _ => container_repr ext v
  end.

(** [floatstr] of the encoder: the three floats that are no numbers have
    the reprs nan, inf and -inf. *)
Definition floatstr (x : str) : str :=
  let text := float_repr ext x in
  if str_eqb text (lit "nan") then lit "NaN"
  else if str_eqb text (lit "inf") then lit "Infinity"
  else if str_eqb text (lit "-inf") then lit "-Infinity"
  else text.

(** [json.dumps(v)] *)
Fixpoint dumps (v : pyval) : str :=
  match v with
  | PStr s => encode_basestring_ascii s
  | PNone => lit "null"
  | PBool true => lit "true"
  | PBool false => lit "false"
  | PInt n => int_repr n
  | PFloat x => floatstr x
  | PList [] => lit "[]"
  | PList items => lit "[" ++ join (lit ", ") (map dumps items) ++ lit "]"
  | PDict [] => lit "{}"
  | PDict d =>
      lit "{"
      ++ join (lit ", ")
           (map (fun kv => match kv with
                           | (k, x) => encode_basestring_ascii k ++ lit ": " ++ dumps x
                           end) d)
      ++ lit "}"
  end.

(** A dict built by the code: its keys are the hashable values. *)
Definition pymap : Type := list (pyval * pyval).

Definition hashable (k : pyval) : bool :=
  match k with PList _ | PDict _ => false | _ => true end.

Definition int_of_bool (b : bool) : Z := if b then 1%Z else 0%Z.

(** [a == b] on hashable values, as a dict compares keys. *)
Definition key_eq (a b : pyval) : bool :=
  match a, b with
  | PNone, PNone => true
  | PStr x, PStr y => str_eqb x y
  | PBool x, PBool y => Bool.eqb x y
  | PBool x, PInt n | PInt n, PBool x => (n =? int_of_bool x)%Z
  | PInt n, PInt m => (n =? m)%Z
  | PFloat x, PFloat y => float_eq ext x y
  | PFloat x, PInt n | PInt n, PFloat x => float_eq_int ext x n
  | PFloat x, PBool y | PBool y, PFloat x => float_eq_int ext x (int_of_bool y)
  | _, _ => false
  end.

Fixpoint context_set (d : pymap) (k v : pyval) : pymap :=
  match d with
  | [] => [(k, v)]
  | (k', v') :: d' =>
      if key_eq k' k then (k', v) :: d' else (k', v') :: context_set d' k v
  end.

(** [d[k] = v] *)
Definition setitem (d : pymap) (k v : pyval) : result pymap :=
  if hashable k then Return (context_set d k v) else Raise TypeError.

(** The text the encoder writes for a key. *)
Definition dumps_key (k : pyval) : str :=
  match k with
  | PStr s => s
  | PFloat x => floatstr x
  | PBool true => lit "true"
  | PBool false => lit "false"
  | PNone => lit "null"
  | PInt n => int_repr n
  | PList _ | PDict _ => []   (* no key of a dict: not hashable *)
  end.

(** [json.dumps(context_dict)] *)
Definition dumps_dict (d : pymap) : str :=
  match d with
  | [] => lit "{}"
  | _ =>
      lit "{"
      ++ join (lit ", ")
           (map (fun kv => encode_basestring_ascii (dumps_key (fst kv))
                           ++ lit ": " ++ dumps (snd kv)) d)
      ++ lit "}"
  end.

(** ** process_llm_output_to_a2ui_parts *)

Definition process_llm_output_to_a2ui_parts (llm_output : str) : list Part :=
  match llm_output with
  | [] => []
  | _ :: _ =>
      let llm_output := strip llm_output in
      match re_search llm_output with
      | None => [TextPart llm_output]
      | Some start =>
          let json_str := skipn start llm_output in
          let data :=
            match raw_decode json_str with
            | Some (data, _) => data
            | None =>
                let end_match := Z.max (rfind "}" json_str) (rfind "]" json_str) in
                if (end_match =? -1)%Z then PNone
                else
                  match loads (firstn (Z.to_nat (end_match + 1)) json_str) with
                  | Some data => data
                  | None => PNone
                  end
            end in
          match data with
          | PNone => [TextPart llm_output]
          | PList a2ui_messages => map (create_a2ui_part ext) a2ui_messages
          | PDict d =>
              match dict_get d (lit "messages") with
              | Some (PList a2ui_messages) => map (create_a2ui_part ext) a2ui_messages
              | _ => map (create_a2ui_part ext) [data]
              end
          | _ => [TextPart (py_str data)]
          end
      end
  end.

(** ** A2UIAgentExecutor.execute *)

(** One turn of the loop over [action_context]. *)
Definition context_entry (context_dict : pymap) (item : pyval)
    : result pymap :=
  key <- py_get item (lit "key") PNone ;;
  val <- py_get item (lit "value") (PDict []) ;;
  is_string <- py_in (lit "literalString") val ;;
  if is_string then
    v <- py_item val (lit "literalString") ;; setitem context_dict key v
  else
    is_number <- py_in (lit "literalNumber") val ;;
    if is_number then
      v <- py_item val (lit "literalNumber") ;; setitem context_dict key v
    else
      is_boolean <- py_in (lit "literalBoolean") val ;;
      if is_boolean then
        v <- py_item val (lit "literalBoolean") ;; setitem context_dict key v
      else
        is_path <- py_in (lit "path") val ;;
        if is_path then
          v <- py_item val (lit "path") ;;
          setitem context_dict key (PStr (lit "{path: " ++ py_str v ++ lit "}"))
        else Return context_dict.

Fixpoint context_entries (context_dict : pymap) (items : list pyval)
    : result pymap :=
  match items with
  | [] => Return context_dict
  | item :: rest =>
      d <- context_entry context_dict item ;; context_entries d rest
  end.

(** The f-string of the directive. *)
Definition directive (action_name : str) (context_json : str) : str :=
  lit "User initiated action: '" ++ action_name
  ++ lit "'. Action context data: " ++ context_json
  ++ lit ". Please use the appropriate tool to handle this.".

(** The body of the [if] for a data part that has the key userAction. *)
Definition user_action_of (action_payload : pyval) : result str :=
  action_name <- py_get action_payload (lit "name") PNone ;;
  action_context <- py_get action_payload (lit "context") (PList []) ;;
  items <- py_iter action_context ;;
  context_dict <- context_entries [] items ;;
  Return (directive (py_str action_name) (dumps_dict context_dict)).

(** The loop over the parts of the message, left at the first match. *)
Fixpoint find_user_action (parts : list Part) : result (option str) :=
  match parts with
  | [] => Return None
  | DataPart data :: rest =>
      match dict_get data (lit "userAction") with
      | Some action_payload =>
          user_action_data <- user_action_of action_payload ;;
          Return (Some user_action_data)
      | None => find_user_action rest
      end
  | _ :: rest => find_user_action rest
  end.

(** The text the loop over the events of the runner gathers. *)
Definition event_text (event : AdkEvent) : str :=
  match content event with
  | Some c =>
      match content_parts c with
      | Some ps => flat_map (fun p => match text p with Some t => t | None => [] end) ps
      | None => []
      end
  | None => []
  end.

Definition accumulate (events : list AdkEvent) : str := flat_map event_text events.

Definition activate (context : RequestContext) : M unit :=
  fun w => (Return tt,
            {| event_queue := event_queue w;
               activated_extensions :=
                 try_activate_a2ui_extension ext context (activated_extensions w) |}).

Definition execute (self : A2UIAgentExecutor) (context : RequestContext) : M unit :=
  let user_input_text := match user_input context with Some s => s | None => [] end in
  user_action_data <~ lift (match message context with
                            | Some m => find_user_action (parts m)
                            | None => Return None
                            end) ;;
  match user_input_text, user_action_data with
  | [], None => ret tt
  | _, _ =>
      activate context ;;;
      let task := match current_task context with
                  | Some t => t
                  | None => new_task ext (message context)
                  end in
      match current_task context with
       | Some _ => ret tt
       | None => enqueue_event (TaskEvent task)
       end ;;;
      update_status task working None false ;;;
      let msg_text := match user_action_data with
                      | Some d => strip (user_input_text ++ [10] ++ d)
                      | None => user_input_text
                      end in
      let new_message := {| role := lit "user";
                            content_parts := Some [{| text := Some msg_text |}] |} in
      let run := runner self (lit "user") (context_id context) new_message in
      match raised run with
      | Some e =>
          update_status task failed
            (Some (new_agent_parts_message [TextPart (lit "Error: " ++ e)]
                     (task_context_id task) (task_id task)))
            true
      | None =>
          let final_a2a_parts := process_llm_output_to_a2ui_parts (accumulate (yielded run)) in
          update_status task completed
            (Some (new_agent_parts_message final_a2a_parts
                     (task_context_id task) (task_id task)))
            true
      end
  end.

End Executor.

(** ** A2UIAgentExecutor.cancel *)

(** The names agent_executor.py binds at module level: its imports, the
    logger, the function and the class.  No builtin is called ServerError. *)
Definition module_globals : list string :=
  ["json"; "logging"; "re"; "a2a_types"; "AgentExecutor"; "RequestContext";
   "EventQueue"; "TaskUpdater"; "UnsupportedOperationError"; "Task";
   "new_agent_parts_message"; "new_task"; "Runner"; "Aclosing"; "types";
   "create_a2ui_part"; "try_activate_a2ui_extension"; "logger";
   "process_llm_output_to_a2ui_parts"; "A2UIAgentExecutor"]%string.

(** Evaluating a global name: a [NameError] when nothing binds it. *)
Definition global {A : Type} (name : string) (value : A) : result A :=
  if existsb (String.eqb name) module_globals then Return value
  else Raise (NameError name).

(** [raise ServerError(error=UnsupportedOperationError())]: the callee is
    evaluated first, then its argument; the call builds the exception that
    is raised. *)
Definition cancel (self : A2UIAgentExecutor) (request : RequestContext)
    : M (option Task) :=
  lift (make_error <- global "ServerError" ServerError ;;
        error <- global "UnsupportedOperationError" UnsupportedOperationError ;;
        Raise (make_error error)).

(** ** The steps of the recovery, as the specification names them *)

(** Step 3: the value that starts the text, whatever follows it. *)
Definition prefix_tolerant (json_str : str) : option pyval :=
  option_map fst (raw_decode json_str).

(** Step 4: a strict parse up to and including the last closing bracket. *)
Definition suffix_trim (json_str : str) : option pyval :=
  let end_match := Z.max (rfind "}" json_str) (rfind "]" json_str) in
  if (end_match =? -1)%Z then None
  else loads (firstn (Z.to_nat (end_match + 1)) json_str).

(** Steps 3 and 4 in their order. *)
Definition two_stage (json_str : str) : option pyval :=
  match prefix_tolerant json_str with
  | Some data => Some data
  | None => suffix_trim json_str
  end.

(** Step 6: the message records of a list or a dict. *)
Definition message_records (data : pyval) : option (list pyval) :=
  match data with
  | PList items => Some items
  | PDict d =>
      match dict_get d (lit "messages") with
      | Some (PList items) => Some items
      | _ => Some [data]
      end
  | _ => None
  end.

(** Steps 5 to 7: the parts made of what was recovered from [text]. *)
Definition parts_of (ext : Externals) (text : str) (recovered : option pyval)
    : list Part :=
  match recovered with
  | None | Some PNone => [TextPart text]
  | Some data =>
      match message_records data with
      | Some records => map (create_a2ui_part ext) records
      | None => [TextPart (py_str ext data)]
      end
  end.

(** Collaborators to run the definitions on closed inputs that hold no
    float: a float prints as its literal, a container as a question
    mark, a message record is wrapped under the key a2ui. *)
Definition sample_externals : Externals := {|
  float_repr := fun x => x;
  float_eq := str_eqb;
  float_eq_int := fun _ _ => false;
  container_repr := fun _ => lit "?";
  create_a2ui_part := fun m => DataPart [(lit "a2ui", m)];
  try_activate_a2ui_extension := fun context active =>
    active ++ requested_extensions context;
  new_task := fun _ => {| task_id := lit "task-1"; task_context_id := lit "ctx-1" |}
|}.

(** ** The interaction, as the specification names its parts *)

(** A data part with the key userAction. *)
Definition has_user_action (part : Part) : bool :=
  match part with
  | DataPart data =>
      match dict_get data (lit "userAction") with Some _ => true | None => false end
  | _ => false
  end.

(** The value of a context entry: a tagged union of four cases. *)
Inductive Number : Type :=
| IntNumber (n : Z)
| FloatNumber (literal : str).

Inductive BoundValue : Type :=
| literalString (s : str)
| literalNumber (n : Number)
| literalBoolean (b : bool)
| path (p : str).

Record ContextEntry : Type := { key : str; value : BoundValue }.

Definition number_value_of (n : Number) : pyval :=
  match n with IntNumber z => PInt z | FloatNumber x => PFloat x end.

(** The entries as they arrive in the payload. *)
Definition tagged (v : BoundValue) : pyval :=
  match v with
  | literalString s => PDict [(lit "literalString", PStr s)]
  | literalNumber n => PDict [(lit "literalNumber", number_value_of n)]
  | literalBoolean b => PDict [(lit "literalBoolean", PBool b)]
  | path p => PDict [(lit "path", PStr p)]
  end.

Definition entry_record (e : ContextEntry) : pyval :=
  PDict [(lit "key", PStr (key e)); (lit "value", tagged (value e))].

(** The plain value of each case; a path is shown as a placeholder. *)
Definition unwrap (v : BoundValue) : pyval :=
  match v with
  | literalString s => PStr s
  | literalNumber n => number_value_of n
  | literalBoolean b => PBool b
  | path p => PStr (lit "{path: " ++ p ++ lit "}")
  end.

(** The plain mapping from keys to values that the entries describe. *)
Definition context_mapping (ext : Externals) (entries : list ContextEntry) : pymap :=
  fold_left (fun d e => context_set ext d (PStr (key e)) (unwrap (value e))) entries [].

(** The text of the user, the task of the interaction and the event that
    announces a task made for it. *)
Definition user_text (context : RequestContext) : str :=
  match user_input context with Some s => s | None => [] end.

Definition task_for (ext : Externals) (context : RequestContext) : Task :=
  match current_task context with
  | Some t => t
  | None => new_task ext (message context)
  end.

Definition creation (ext : Externals) (context : RequestContext) : list Event :=
  match current_task context with
  | Some _ => []
  | None => [TaskEvent (task_for ext context)]
  end.

(** The combined prompt: the text, then the directive of the action. *)
Definition prompt (context : RequestContext) (user_action_data : option str) : Content :=
  {| role := lit "user";
     content_parts :=
       Some [{| text := Some (match user_action_data with
                              | Some d => strip (user_text context ++ [10] ++ d)
                              | None => user_text context
                              end) |}] |}.

(** The terminal update a run ends in. *)
Definition terminal_update (ext : Externals) (task : Task) (run : Run) : Event :=
  match raised run with
  | Some e =>
      StatusUpdate (task_id task) (task_context_id task) failed
        (Some (new_agent_parts_message [TextPart (lit "Error: " ++ e)]
                 (task_context_id task) (task_id task)))
        true
  | None =>
      StatusUpdate (task_id task) (task_context_id task) completed
        (Some (new_agent_parts_message
                 (process_llm_output_to_a2ui_parts ext (accumulate (yielded run)))
                 (task_context_id task) (task_id task)))
        true
  end.

(** The states a list of events moves tasks to, in order. *)
Definition transitions (events : list Event) : list TaskState :=
  flat_map (fun e => match e with
                     | StatusUpdate _ _ state _ _ => [state]
                     | TaskEvent _ => []
                     end) events.

Definition idle_runner : Runner := fun _ _ _ => {| yielded := []; raised := None |}.

Definition fresh_world : World := {| event_queue := []; activated_extensions := [] |}.

(** [d.get(k)] on a dict built by the code. *)
Fixpoint mapping_get (ext : Externals) (d : pymap) (k : pyval) : option pyval :=
  match d with
  | [] => None
  | (k', v) :: d' => if key_eq ext k' k then Some v else mapping_get ext d' k
  end.

(** The last entry that has the key [k]. *)
Definition last_entry (entries : list ContextEntry) (k : str) : option ContextEntry :=
  find (fun e => str_eqb (key e) k) (rev entries).

(** What the handler reads of the message: the directive of the action,
    if there is one. *)
Definition extraction (ext : Externals) (context : RequestContext) : result (option str) :=
  match message context with
  | Some m => find_user_action ext (parts m)
  | None => Return None
  end.

(** The world after a run that got past the test for an empty
    interaction. *)
Definition handled (ext : Externals) (self : A2UIAgentExecutor)
    (context : RequestContext) (user_action_data : option str) (w : World) : World :=
  let task := task_for ext context in
  {| event_queue :=
       event_queue w ++ creation ext context
       ++ [StatusUpdate (task_id task) (task_context_id task) working None false;
           terminal_update ext task
             (runner self (lit "user") (context_id context)
                     (prompt context user_action_data))];
     activated_extensions :=
       try_activate_a2ui_extension ext context (activated_extensions w) |}.

(** ** Values that come back from their JSON text *)

(** A character of an ordinary text: a code point of Unicode that is no
    high surrogate. *)
Definition plain_char (c : char) : bool := (c <? 1114112) && negb (high_surrogate c).

Definition plain_str (s : str) : bool := forallb plain_char s.

Fixpoint distinct_keys (keys : list str) : bool :=
  match keys with
  | [] => true
  | k :: rest => negb (existsb (str_eqb k) rest) && distinct_keys rest
  end.

(** A value without floats, with ordinary texts as strings and keys, and
    with no key twice in a dict. *)
Fixpoint plain (v : pyval) : bool :=
  match v with
  | PNone | PBool _ | PInt _ => true
  | PFloat _ => false
  | PStr s => plain_str s
  | PList items => forallb plain items
  | PDict d =>
      forallb (fun kv => match kv with (k, x) => plain_str k && plain x end) d
      && distinct_keys (map fst d)
  end.

(** What an entry of the context needs for its mapping to be plain. *)
Definition plain_entry (e : ContextEntry) : bool :=
  plain_str (key e) &&
  match value e with
  | literalString s => plain_str s
  | literalNumber (IntNumber _) => true
  | literalNumber (FloatNumber _) => false
  | literalBoolean _ => true
  | path p => plain_str p
  end.

(** A dict of the code with string keys, as a value. *)
Definition as_dict (d : pymap) : pydict :=
  map (fun kv => (match fst kv with PStr s => s | _ => [] end, snd kv)) d.

(** An entry whose value carries none of the four tags. *)
Definition untagged (fields : pydict) : Prop :=
  match dict_get fields (lit "value") with
  | None => True
  | Some (PDict v) =>
      dict_get v (lit "literalString") = None /\
      dict_get v (lit "literalNumber") = None /\
      dict_get v (lit "literalBoolean") = None /\
      dict_get v (lit "path") = None
  | Some _ => False
  end.

Definition string_keys (d : pymap) : Prop :=
  Forall (fun kv => exists s, fst kv = PStr s) d.

(** The number a run of decimal digits writes. *)
Definition digits_value (ds : str) : N :=
  fold_left (fun a c => a * 10 + (c - 48)) ds 0.

(** Decimal digits without a needless leading zero. *)
Definition canonical_digits (ds : str) : Prop :=
  forallb is_digit ds = true /\
  match ds with
  | [] => False
  | c :: rest => c = 48 -> rest = []
  end.

(** ** Vocabulary of the proofs *)

Definition head_is (f : char -> bool) (s : str) : Prop :=
  match s with c :: _ => f c = true | [] => False end.

(** The text after a number literal cannot make the literal longer. *)
Definition ends_number (r : str) : bool :=
  match r with
  | [] => true
  | c :: _ => negb (is_digit c || is_char "." c || is_char "e" c || is_char "E" c)
  end.

Definition no_digit (r : str) : Prop :=
  match r with [] => True | c :: _ => is_digit c = false end.

Definition number_text (integer : str) (frac exp : option str) : str :=
  integer ++ or_empty frac ++ or_empty exp.

(** The text a scan of a string literal used up: it holds every escape
    sequence it starts. *)
Definition whole (c : str) : Prop :=
  c <> [] /\
  (head_is (is_char "\") c -> (2 <= List.length c)%nat) /\
  (escape_u_next c = true -> (6 <= List.length c)%nat).

Definition is_number (v : pyval) : bool :=
  match v with PInt _ | PFloat _ => true | _ => false end.

(** A parser is stable when a successful run stays the same whatever text
    replaces what it left, as long as the new text is allowed ([ok]). *)
Definition Stable {A : Type} (p : str -> scan (A * str)) (ok : A -> str -> Prop) : Prop :=
  forall s a r, p s = Done (a, r) ->
  exists c, s = c ++ r /\ c <> [] /\
            forall r', ok a r' -> p (c ++ r') = Done (a, r').

Definition follows (v : pyval) (r' : str) : Prop :=
  is_number v = true -> ends_number r' = true.

Definition anything {A : Type} (_ : A) (_ : str) : Prop := True.

Definition number_value (integer : str) (frac exp : option str) : pyval :=
  match frac, exp with
  | None, None => PInt (parse_int integer)
  | _, _ => PFloat (integer ++ or_empty frac ++ or_empty exp)
  end.

(** More budget does not change an outcome other than [Fuel]. *)
Definition Grows {X A : Type} (p p' : X -> scan A) : Prop :=
  forall s x, p s = x -> x <> Fuel -> p' s = x.

(** Brackets are kept by the search exactly when there is none. *)
Definition no_bracket (s : str) : bool :=
  forallb (fun c => negb (is_char "{" c || is_char "[" c)) s.

Ltac renest := repeat (rewrite <- app_assoc || rewrite <- app_comm_cons).

(** The first character of the text of a value: no whitespace, no closing
    bracket, no byte order mark. *)
Definition value_head (s : str) : Prop :=
  match s with
  | c :: _ => is_ws c = false /\ is_char "]" c = false /\ (c =? 65279) = false
  | [] => False
  end.

(** The scanner reads the text of [v] back as [v], whatever follows. *)
Definition Decodes (ext : Externals) (v : pyval) : Prop :=
  exists f, forall f' rest, (f <= f')%nat -> follows v rest ->
    scan_once f' (dumps ext v ++ rest) = Done (v, rest).

(** The text of one pair of a dict. *)
Definition dumps_item (ext : Externals) (kv : str * pyval) : str :=
  match kv with
  | (k, x) => encode_basestring_ascii k ++ lit ": " ++ dumps ext x
  end.

(** * Properties *)

(** ** Strings *)

Lemma str_eqb_eq (a b : str) : str_eqb a b = true <-> a = b.
Proof.
  revert b; induction a as [|x a IH]; intros [|y b]; simpl;
    try (split; [discriminate|discriminate]).
  - split; reflexivity.
  - rewrite andb_true_iff, N.eqb_eq, IH. split.
    + intros [-> ->]. reflexivity.
    + intros H. injection H as -> ->. split; reflexivity.
Qed.

Lemma str_eqb_refl (a : str) : str_eqb a a = true.
Proof. apply str_eqb_eq. reflexivity. Qed.

Lemma strip_prefix_app (p r : str) : strip_prefix p (p ++ r) = Some r.
Proof.
  induction p as [|x p IH]; simpl.
  - destruct r; reflexivity.
  - rewrite N.eqb_refl. exact IH.
Qed.

Lemma strip_prefix_Some (p s r : str) :
  strip_prefix p s = Some r -> s = p ++ r.
Proof.
  revert s; induction p as [|x p IH]; intros s H.
  - destruct s; simpl in *; congruence.
  - destruct s as [|y s]; simpl in H; [discriminate|].
    destruct (x =? y) eqn:E; [|discriminate].
    apply N.eqb_eq in E. subst y. simpl. f_equal. apply IH. exact H.
Qed.

(** ** Whitespace *)

Lemma skip_ws_head (s : str) (h : char) (t : str) :
  skip_ws s = h :: t -> is_ws h = false.
Proof.
  induction s as [|c s IH]; simpl; [discriminate|].
  destruct (is_ws c) eqn:E; [exact IH|].
  intros H. injection H as -> _. exact E.
Qed.

(** What [skip_ws] stops at does not depend on the text after it. *)
Lemma skip_ws_stable (s : str) (h : char) (t : str) :
  skip_ws s = h :: t ->
  exists w, s = w ++ h :: t /\ forallb is_ws w = true /\
            forall t', skip_ws (w ++ h :: t') = h :: t'.
Proof.
  induction s as [|c s IH]; simpl; [discriminate|].
  destruct (is_ws c) eqn:E.
  - intros H. destruct (IH H) as (w & -> & Hall & Hw).
    exists (c :: w). split; [reflexivity|]. split; [simpl; now rewrite E|].
    intros t'. simpl. rewrite E. apply Hw.
  - intros H. injection H as -> ->. exists []. split; [reflexivity|].
    split; [reflexivity|].
    intros t'. simpl. rewrite E. reflexivity.
Qed.

Lemma skip_ws_nil (s : str) :
  skip_ws s = [] -> forallb is_ws s = true.
Proof.
  induction s as [|c s IH]; simpl; [reflexivity|].
  destruct (is_ws c); [exact IH|discriminate].
Qed.

Lemma skip_ws_all (w s : str) :
  forallb is_ws w = true -> skip_ws (w ++ s) = skip_ws s.
Proof.
  induction w as [|c w IH]; simpl; [reflexivity|].
  intros H. apply andb_true_iff in H as [-> H]. apply IH. exact H.
Qed.

Lemma skip_ws_fix (h : char) (t : str) :
  is_ws h = false -> skip_ws (h :: t) = h :: t.
Proof. intros E. simpl. rewrite E. reflexivity. Qed.

Lemma skip_ws_length (s : str) : (List.length (skip_ws s) <= List.length s)%nat.
Proof.
  induction s as [|c s IH]; simpl; [lia|].
  destruct (is_ws c); simpl; lia.
Qed.

(** ** Numbers *)

Lemma ends_number_no_digit (r : str) : ends_number r = true -> no_digit r.
Proof.
  destruct r as [|c r]; simpl; [trivial|].
  intros H. apply negb_true_iff in H.
  destruct (is_digit c); [discriminate|reflexivity].
Qed.

Lemma span_digits_stable (s d r : str) :
  span_digits s = (d, r) ->
  s = d ++ r /\ forall r', no_digit r' -> span_digits (d ++ r') = (d, r').
Proof.
  revert d r; induction s as [|c s IH]; simpl; intros d r H.
  - injection H as <- <-. split; [reflexivity|].
    intros [|c' r'] Hr; simpl in *; [reflexivity|]. rewrite Hr. reflexivity.
  - destruct (is_digit c) eqn:E.
    + destruct (span_digits s) as [d0 r0] eqn:Es.
      injection H as <- <-.
      destruct (IH _ _ eq_refl) as [-> Hs].
      split; [reflexivity|].
      intros r' Hr. simpl. rewrite E, (Hs r' Hr). reflexivity.
    + injection H as <- <-. split; [reflexivity|].
      intros [|c' r'] Hr; simpl in *; [reflexivity|]. rewrite Hr. reflexivity.
Qed.

Lemma match_integer_stable (s i r : str) :
  match_integer s = Some (i, r) ->
  s = i ++ r /\ i <> [] /\
  (exists h t, i = h :: t /\ (is_char "-" h || is_digit h) = true) /\
  forall r', no_digit r' -> match_integer (i ++ r') = Some (i, r').
Proof.
  unfold match_integer. intros H.
  destruct s as [|c s]; [discriminate|].
  destruct (is_char "-" c) eqn:Em.
  - destruct s as [|c1 s]; [discriminate|].
    destruct (is_char "0" c1) eqn:E0.
    + injection H as <- <-. repeat split; try discriminate.
      * exists c, [c1]. rewrite Em. auto.
      * intros r' _. simpl. rewrite Em, E0. reflexivity.
    + destruct (is_digit c1) eqn:Ed; [|discriminate].
      destruct (span_digits s) as [d r0] eqn:Es.
      injection H as <- <-.
      destruct (span_digits_stable _ _ _ Es) as [-> Hs].
      repeat split; try discriminate.
      * exists c, (c1 :: d). rewrite Em. auto.
      * intros r' Hr. simpl. rewrite Em, E0, Ed, (Hs r' Hr). reflexivity.
  - destruct (is_char "0" c) eqn:E0.
    + injection H as <- <-. repeat split; try discriminate.
      * exists c, []. split; [reflexivity|].
        unfold is_char in E0. apply N.eqb_eq in E0. subst c. reflexivity.
      * intros r' _. simpl. rewrite Em, E0. reflexivity.
    + destruct (is_digit c) eqn:Ed; [|discriminate].
      destruct (span_digits s) as [d r0] eqn:Es.
      injection H as <- <-.
      destruct (span_digits_stable _ _ _ Es) as [-> Hs].
      repeat split; try discriminate.
      * exists c, d. rewrite Ed, orb_true_r. auto.
      * intros r' Hr. simpl. rewrite Em, E0, Ed, (Hs r' Hr). reflexivity.
Qed.

Lemma match_frac_stable (s f r : str) :
  match_frac s = Some (f, r) ->
  s = f ++ r /\ head_is (is_char ".") f /\
  forall r', no_digit r' -> match_frac (f ++ r') = Some (f, r').
Proof.
  unfold match_frac. intros H.
  destruct s as [|c s]; [discriminate|].
  destruct (is_char "." c) eqn:E; [|discriminate].
  destruct (span_digits s) as [d r0] eqn:Es.
  destruct (span_digits_stable _ _ _ Es) as [-> Hs].
  destruct d as [|d0 d]; [discriminate|].
  injection H as <- <-.
  repeat split; [exact E|].
  intros r' Hr. cbn [app]. rewrite E.
  change (d0 :: d ++ r') with ((d0 :: d) ++ r'). rewrite (Hs r' Hr).
  reflexivity.
Qed.

Lemma match_exp_stable (s e r : str) :
  match_exp s = Some (e, r) ->
  s = e ++ r /\ head_is (fun c => is_char "e" c || is_char "E" c) e /\
  forall r', no_digit r' -> match_exp (e ++ r') = Some (e, r').
Proof.
  unfold match_exp. intros H.
  destruct s as [|c s]; [discriminate|].
  destruct (is_char "e" c || is_char "E" c) eqn:E; [|discriminate].
  assert (Hsign : forall g, (is_char "-" g || is_char "+" g) = true -> is_digit g = false).
  { intros g Hg. apply orb_true_iff in Hg as [Hg|Hg];
      unfold is_char in Hg; apply N.eqb_eq in Hg; subst g; reflexivity. }
  destruct s as [|g s].
  - simpl in H. discriminate.
  - destruct (is_char "-" g || is_char "+" g) eqn:Eg.
    + destruct (span_digits s) as [d r0] eqn:Es.
      destruct (span_digits_stable _ _ _ Es) as [-> Hs].
      destruct d as [|d0 d]; [discriminate|].
      injection H as <- <-.
      repeat split; [exact E|].
      intros r' Hr. cbn [app]. rewrite E, Eg.
      change (d0 :: d ++ r') with ((d0 :: d) ++ r'). rewrite (Hs r' Hr).
      reflexivity.
    + destruct (span_digits (g :: s)) as [d r0] eqn:Es.
      destruct (span_digits_stable _ _ _ Es) as [Hgs Hs].
      destruct d as [|d0 d]; [discriminate|].
      injection H as <- <-.
      injection Hgs as -> ->.
      repeat split; [exact E|].
      intros r' Hr. cbn [app]. rewrite E, Eg.
      change (d0 :: d ++ r') with ((d0 :: d) ++ r'). rewrite (Hs r' Hr).
      reflexivity.
Qed.

Lemma match_frac_None (r : str) : ends_number r = true -> match_frac r = None.
Proof.
  destruct r as [|c r]; simpl; [reflexivity|].
  intros H. apply negb_true_iff in H.
  destruct (is_char "." c); [|reflexivity].
  rewrite orb_true_r in H. discriminate.
Qed.

Lemma match_exp_None (r : str) : ends_number r = true -> match_exp r = None.
Proof.
  destruct r as [|c r]; simpl; [reflexivity|].
  intros H. apply negb_true_iff in H.
  destruct (is_digit c), (is_char "." c), (is_char "e" c), (is_char "E" c);
    simpl in *; try discriminate; reflexivity.
Qed.

Lemma head_no_digit (f : char -> bool) (x r : str) :
  (forall c, f c = true -> is_digit c = false) ->
  head_is f x -> no_digit (x ++ r).
Proof.
  intros Hf. destruct x as [|c x]; simpl; [contradiction|].
  apply Hf.
Qed.

Lemma dot_no_digit (c : char) : is_char "." c = true -> is_digit c = false.
Proof. unfold is_char. intros H. apply N.eqb_eq in H. subst c. reflexivity. Qed.

Lemma e_no_digit (c : char) :
  is_char "e" c || is_char "E" c = true -> is_digit c = false.
Proof.
  intros H. apply orb_true_iff in H as [H|H];
    unfold is_char in H; apply N.eqb_eq in H; subst c; reflexivity.
Qed.

Lemma match_frac_e (x r : str) :
  head_is (fun c => is_char "e" c || is_char "E" c) x -> match_frac (x ++ r) = None.
Proof.
  destruct x as [|c x]; simpl; [contradiction|].
  intros H. apply orb_true_iff in H as [H|H];
    unfold is_char in H; apply N.eqb_eq in H; subst c; reflexivity.
Qed.

Lemma match_number_stable (s i : str) (f e : option str) (r : str) :
  match_number s = Some (i, f, e, r) ->
  s = number_text i f e ++ r /\
  (exists h t, i = h :: t /\ (is_char "-" h || is_digit h) = true) /\
  forall r', ends_number r' = true ->
    match_number (number_text i f e ++ r') = Some (i, f, e, r').
Proof.
  unfold match_number, number_text. intros H.
  destruct (match_integer s) as [[i0 r0]|] eqn:Ei; [|discriminate].
  destruct (match_integer_stable _ _ _ Ei) as (-> & _ & Hh & Hi).
  destruct (match_frac r0) as [[f0 r1]|] eqn:Ef.
  - destruct (match_frac_stable _ _ _ Ef) as (-> & Hfh & Hf).
    destruct (match_exp r1) as [[e0 r2]|] eqn:Ee.
    + destruct (match_exp_stable _ _ _ Ee) as (-> & Heh & He).
      injection H as <- <- <- <-. simpl.
      split; [now rewrite !app_assoc|]. split; [exact Hh|].
      intros r' Hr. rewrite <- !app_assoc.
      rewrite Hi by (apply (head_no_digit _ _ _ dot_no_digit Hfh)).
      rewrite Hf by (apply (head_no_digit _ _ _ e_no_digit Heh)).
      rewrite He by (apply ends_number_no_digit, Hr). reflexivity.
    + injection H as <- <- <- <-. simpl. rewrite app_nil_r.
      split; [now rewrite !app_assoc|]. split; [exact Hh|].
      intros r' Hr. rewrite <- !app_assoc.
      rewrite Hi by (apply (head_no_digit _ _ _ dot_no_digit Hfh)).
      rewrite Hf by (apply ends_number_no_digit, Hr).
      rewrite (match_exp_None _ Hr). reflexivity.
  - destruct (match_exp r0) as [[e0 r2]|] eqn:Ee.
    + destruct (match_exp_stable _ _ _ Ee) as (-> & Heh & He).
      injection H as <- <- <- <-. simpl.
      split; [now rewrite !app_assoc|]. split; [exact Hh|].
      intros r' Hr. rewrite <- !app_assoc.
      rewrite Hi by (apply (head_no_digit _ _ _ e_no_digit Heh)).
      rewrite (match_frac_e _ _ Heh).
      rewrite He by (apply ends_number_no_digit, Hr). reflexivity.
    + injection H as <- <- <- <-. simpl. rewrite app_nil_r.
      split; [reflexivity|]. split; [exact Hh|].
      intros r' Hr.
      rewrite Hi by (apply ends_number_no_digit, Hr).
      rewrite (match_frac_None _ Hr), (match_exp_None _ Hr). reflexivity.
Qed.


(** ** String literals *)

Lemma cons_chunk_Some (x : char) (o : option (str * str)) (k r : str) :
  cons_chunk x o = Some (k, r) -> exists k', o = Some (k', r) /\ k = x :: k'.
Proof.
  destruct o as [[k' r']|]; simpl; [|discriminate].
  intros H. injection H as <- <-. exists k'. split; reflexivity.
Qed.

Lemma escape_u_next_plain (h : char) (t : str) :
  is_char "\" h = false -> escape_u_next (h :: t) = false.
Proof. intros E. destruct t; simpl; [reflexivity|]. rewrite E. reflexivity. Qed.

Lemma escape_u_next_whole (c r r' : str) :
  whole c -> escape_u_next (c ++ r') = escape_u_next (c ++ r).
Proof.
  intros (Hne & H2 & _).
  destruct c as [|h c]; [contradiction|].
  destruct (is_char "\" h) eqn:E.
  - specialize (H2 E). destruct c as [|e c]; [simpl in H2; lia|]. reflexivity.
  - cbn [app]. rewrite !escape_u_next_plain by exact E. reflexivity.
Qed.

Lemma scanstring_escape_u (c0 esc x1 x2 x3 x4 : char) (t : str) (uni : N) :
  (c0 =? 34) = false -> is_char "\" c0 = true -> is_char "u" esc = true ->
  decode_uXXXX x1 x2 x3 x4 = Some uni ->
  scanstring (c0 :: esc :: x1 :: x2 :: x3 :: x4 :: t) =
  if high_surrogate uni && escape_u_next t then
    match t with
    | _ :: _ :: y1 :: y2 :: y3 :: y4 :: tl4 =>
        match decode_uXXXX y1 y2 y3 y4 with
        | None => None
        | Some uni2 =>
            if low_surrogate uni2 then
              cons_chunk (65536 + N.lor (N.shiftl (uni - 55296) 10) (uni2 - 56320))
                         (scanstring tl4)
            else cons_chunk uni (scanstring t)
        end
    | _ => None
    end
  else cons_chunk uni (scanstring t).
Proof.
  intros Eq Eb Eu Ed. cbn [scanstring]. rewrite Eq, Eb, Eu, Ed. reflexivity.
Qed.

Lemma scanstring_stable_len (n : nat) (s : str) :
  (List.length s <= n)%nat ->
  forall k r, scanstring s = Some (k, r) ->
  exists c, s = c ++ r /\ whole c /\ forall r', scanstring (c ++ r') = Some (k, r').
Proof.
  revert s; induction n as [|n IH]; intros s Hlen k r H.
  { destruct s; [discriminate|simpl in Hlen; lia]. }
  destruct s as [|c0 tl]; [discriminate|]. simpl in Hlen.
  cbn [scanstring] in H.
  destruct (c0 =? 34) eqn:Eq.
  { injection H as <- <-. exists [c0]. split; [reflexivity|]. split.
    - split; [discriminate|]. split.
      + simpl. apply N.eqb_eq in Eq. subst c0. discriminate.
      + simpl. discriminate.
    - intros r'. cbn [app scanstring]. rewrite Eq. reflexivity. }
  destruct (is_char "\" c0) eqn:Eb.
  - destruct tl as [|esc tl1]; [discriminate|].
    destruct (is_char "u" esc) eqn:Eu.
    + destruct tl1 as [|x1 [|x2 [|x3 [|x4 tl2]]]]; try discriminate.
      destruct (decode_uXXXX x1 x2 x3 x4) as [uni|] eqn:Ed; [|discriminate].
      simpl in Hlen.
      destruct (high_surrogate uni && escape_u_next tl2) eqn:Ec.
      * destruct tl2 as [|b [|u [|y1 [|y2 [|y3 [|y4 tl4]]]]]]; try discriminate.
        destruct (decode_uXXXX y1 y2 y3 y4) as [uni2|] eqn:Ed2; [|discriminate].
        simpl in Hlen.
        destruct (low_surrogate uni2) eqn:El.
        -- apply cons_chunk_Some in H as (k' & H & ->).
           apply IH in H as (c4 & -> & _ & Hs); [|lia].
           exists (c0 :: esc :: x1 :: x2 :: x3 :: x4 :: b :: u :: y1 :: y2 :: y3 :: y4 :: c4).
           split; [reflexivity|]. split.
           { split; [discriminate|]. split; simpl; intros; lia. }
           intros r'. cbn [app scanstring escape_u_next].
           rewrite Eq, Eb, Eu, Ed. cbn [escape_u_next] in Ec.
           rewrite Ec, Ed2, El, Hs. reflexivity.
        -- apply cons_chunk_Some in H as (k' & H & ->).
           apply IH in H as (c2 & E2 & W2 & Hs); [|simpl; lia].
           assert (Ecr : forall r', escape_u_next (c2 ++ r') = true).
           { intros r'. rewrite (escape_u_next_whole c2 r r' W2), <- E2.
             apply andb_true_iff in Ec as [_ Ec]. exact Ec. }
           assert (L6 : (6 <= List.length c2)%nat).
           { destruct W2 as (Hne & H2 & W6). apply W6.
             destruct c2 as [|h c2]; [contradiction|].
             injection E2 as <- E2.
             apply andb_true_iff in Ec as [_ Ec]. simpl in Ec.
             apply andb_true_iff in Ec as [Ecb Ecu].
             specialize (H2 Ecb). destruct c2 as [|e c2]; [simpl in H2; lia|].
             injection E2 as <- E2. simpl. rewrite Ecb, Ecu. reflexivity. }
           destruct c2 as [|z0 [|z1 [|z2 [|z3 [|z4 [|z5 c3]]]]]]; try (simpl in L6; lia).
           injection E2 as <- <- <- <- <- <- E2.
           exists (c0 :: esc :: x1 :: x2 :: x3 :: x4 :: b :: u :: y1 :: y2 :: y3 :: y4 :: c3).
           split; [rewrite E2; reflexivity|]. split.
           { split; [discriminate|]. split; simpl; intros; lia. }
           intros r'. specialize (Hs r'). cbn [app] in Hs |- *.
           rewrite (scanstring_escape_u _ _ _ _ _ _ _ _ Eq Eb Eu Ed).
           cbn [escape_u_next] in Ec |- *.
           rewrite Ec, Ed2, El, Hs. reflexivity.
      * apply cons_chunk_Some in H as (k' & H & ->).
        apply IH in H as (c2 & -> & W2 & Hs); [|lia].
        exists (c0 :: esc :: x1 :: x2 :: x3 :: x4 :: c2).
        split; [reflexivity|]. split.
        { split; [discriminate|]. split; simpl; intros; lia. }
        intros r'. cbn [app scanstring].
        rewrite Eq, Eb, Eu, Ed, (escape_u_next_whole c2 r r' W2), Ec, Hs.
        reflexivity.
    + destruct (BACKSLASH esc) as [ch|] eqn:Ees; [|discriminate].
      apply cons_chunk_Some in H as (k' & H & ->).
      apply IH in H as (c1 & -> & _ & Hs); [|simpl in Hlen; lia].
      exists (c0 :: esc :: c1).
      split; [reflexivity|]. split.
      { split; [discriminate|]. split; simpl; [intros; lia|].
        rewrite Eu, andb_false_r. discriminate. }
      intros r'. cbn [app scanstring]. rewrite Eq, Eb, Eu, Ees, Hs. reflexivity.
  - destruct (c0 <? 32) eqn:Ectl; [discriminate|].
    apply cons_chunk_Some in H as (k' & H & ->).
    apply IH in H as (c1 & -> & _ & Hs); [|lia].
    exists (c0 :: c1).
    split; [reflexivity|]. split.
    { split; [discriminate|]. split.
      - simpl. rewrite Eb. discriminate.
      - rewrite (escape_u_next_plain c0 c1 Eb). discriminate. }
    intros r'. cbn [app scanstring]. rewrite Eq, Eb, Ectl, Hs. reflexivity.
Qed.

Lemma scanstring_stable (s k r : str) :
  scanstring s = Some (k, r) ->
  exists c, s = c ++ r /\ c <> [] /\ forall r', scanstring (c ++ r') = Some (k, r').
Proof.
  intros H.
  destruct (scanstring_stable_len (List.length s) s (le_n _) k r H)
    as (c & E & (Hne & _) & Hs).
  exists c. auto.
Qed.


(** ** The scanner reads no further than the value *)

Lemma scan_once_S (f : nat) (s : str) :
  scan_once (S f) s =
  scan_value (JSONObject (pairs_loop f)) (JSONArray (values_loop f)) s.
Proof. reflexivity. Qed.

Lemma values_loop_S (f : nat) (s : str) (values : list pyval) :
  values_loop (S f) s values =
  match scan_once f s with
  | Done (value, r) =>
      match skip_ws r with
      | nextchar :: r' =>
          if is_char "]" nextchar then Done (PList (values ++ [value]), r')
          else if is_char "," nextchar then
            values_loop f (skip_ws r') (values ++ [value])
          else Fail
      | [] => Fail
      end
  | Fail => Fail
  | Fuel => Fuel
  end.
Proof. reflexivity. Qed.

Lemma pairs_loop_S (f : nat) (s : str) (pairs : list (str * pyval)) :
  pairs_loop (S f) s pairs =
  match scanstring s with
  | None => Fail
  | Some (key, r) =>
      match skip_ws r with
      | colon :: r1 =>
          if is_char ":" colon then
            match scan_once f (skip_ws r1) with
            | Done (value, r2) =>
                match skip_ws r2 with
                | nextchar :: r3 =>
                    if is_char "}" nextchar then
                      Done (PDict (dict_of_pairs (pairs ++ [(key, value)])), r3)
                    else if is_char "," nextchar then
                      match skip_ws r3 with
                      | q :: r4 =>
                          if q =? 34 then pairs_loop f r4 (pairs ++ [(key, value)])
                          else Fail
                      | [] => Fail
                      end
                    else Fail
                | [] => Fail
                end
            | Fail => Fail
            | Fuel => Fuel
            end
          else Fail
      | [] => Fail
      end
  end.
Proof. reflexivity. Qed.

Lemma number_value_is_number (i : str) (f e : option str) :
  is_number (number_value i f e) = true.
Proof. destruct f, e; reflexivity. Qed.

Lemma number_head_tests (h : char) :
  is_char "-" h || is_digit h = true ->
  (h =? 34) = false /\ is_char "{" h = false /\ is_char "[" h = false /\
  (110 =? h) = false /\ (116 =? h) = false /\ (102 =? h) = false.
Proof.
  unfold is_char, is_digit, ord. simpl N_of_ascii. intros H.
  apply orb_true_iff in H as [H|H].
  - apply N.eqb_eq in H. subst h. repeat split; reflexivity.
  - apply andb_true_iff in H as [H1 H2].
    apply N.leb_le in H1. apply N.leb_le in H2.
    repeat split; apply N.eqb_neq; lia.
Qed.

Lemma scan_value_number (po pa : str -> scan (pyval * str))
    (s i : str) (f e : option str) (r : str) :
  match_number s = Some (i, f, e, r) ->
  scan_value po pa s = Done (number_value i f e, r).
Proof.
  intros H.
  destruct (match_number_stable _ _ _ _ _ H) as (E & (h & t & -> & Hh) & _).
  destruct s as [|n tl]; [discriminate|].
  unfold number_text in E. cbn [app] in E. injection E as -> _.
  destruct (number_head_tests _ Hh) as (T1 & T2 & T3 & T4 & T5 & T6).
  unfold scan_value.
  rewrite T1, T2, T3.
  change (lit "null") with (110 :: lit "ull").
  change (lit "true") with (116 :: lit "rue").
  change (lit "false") with (102 :: lit "alse").
  cbn [strip_prefix]. rewrite T4, T5, T6, H.
  unfold number_value. destruct f, e; reflexivity.
Qed.

Lemma scan_value_stable (po pa : str -> scan (pyval * str)) :
  Stable po anything -> Stable pa anything -> Stable (scan_value po pa) follows.
Proof.
  intros Hpo Hpa s v r H.
  destruct s as [|n tl]; [discriminate|].
  unfold scan_value in H.
  destruct (n =? 34) eqn:Eq.
  { destruct (scanstring tl) as [[text r0]|] eqn:Es; [|discriminate].
    injection H as <- <-.
    destruct (scanstring_stable _ _ _ Es) as (c & -> & _ & Hs).
    exists (n :: c). split; [reflexivity|]. split; [discriminate|].
    intros r' _. cbn [app scan_value]. rewrite Eq, Hs. reflexivity. }
  destruct (is_char "{" n) eqn:Eo.
  { destruct (Hpo _ _ _ H) as (c & -> & _ & Hs).
    exists (n :: c). split; [reflexivity|]. split; [discriminate|].
    intros r' _. cbn [app scan_value]. rewrite Eq, Eo. apply Hs. exact I. }
  destruct (is_char "[" n) eqn:Ea.
  { destruct (Hpa _ _ _ H) as (c & -> & _ & Hs).
    exists (n :: c). split; [reflexivity|]. split; [discriminate|].
    intros r' _. cbn [app scan_value]. rewrite Eq, Eo, Ea. apply Hs. exact I. }
  destruct (strip_prefix (lit "null") (n :: tl)) as [r0|] eqn:E1.
  { injection H as <- <-. apply strip_prefix_Some in E1.
    exists (lit "null"). split; [exact E1|]. split; [discriminate|].
    intros r' _. reflexivity. }
  destruct (strip_prefix (lit "true") (n :: tl)) as [r0|] eqn:E2.
  { injection H as <- <-. apply strip_prefix_Some in E2.
    exists (lit "true"). split; [exact E2|]. split; [discriminate|].
    intros r' _. reflexivity. }
  destruct (strip_prefix (lit "false") (n :: tl)) as [r0|] eqn:E3.
  { injection H as <- <-. apply strip_prefix_Some in E3.
    exists (lit "false"). split; [exact E3|]. split; [discriminate|].
    intros r' _. reflexivity. }
  destruct (match_number (n :: tl)) as [[[[i f] e] r0]|] eqn:En.
  { assert (Hv : v = number_value i f e /\ r = r0).
    { unfold number_value. destruct f, e; injection H as <- <-; auto. }
    destruct Hv as [-> ->].
    destruct (match_number_stable _ _ _ _ _ En) as (E & (h & t & -> & Hh) & Hs).
    exists (number_text (h :: t) f e). split; [exact E|]. split; [discriminate|].
    intros r' Hr. apply scan_value_number. apply Hs. apply Hr.
    apply number_value_is_number. }
  destruct (strip_prefix (lit "NaN") (n :: tl)) as [r0|] eqn:E4.
  { injection H as <- <-. apply strip_prefix_Some in E4.
    exists (lit "NaN"). split; [exact E4|]. split; [discriminate|].
    intros r' _. reflexivity. }
  destruct (strip_prefix (lit "Infinity") (n :: tl)) as [r0|] eqn:E5.
  { injection H as <- <-. apply strip_prefix_Some in E5.
    exists (lit "Infinity"). split; [exact E5|]. split; [discriminate|].
    intros r' _. reflexivity. }
  destruct (strip_prefix (lit "-Infinity") (n :: tl)) as [r0|] eqn:E6.
  { injection H as <- <-. apply strip_prefix_Some in E6.
    exists (lit "-Infinity"). split; [exact E6|]. split; [discriminate|].
    intros r' _. reflexivity. }
  discriminate.
Qed.


(** Whitespace and the three delimiters end a number. *)
Lemma ends_number_delimiter (w : str) (d : char) (x : str) :
  forallb is_ws w = true ->
  is_char "]" d || is_char "," d || is_char "}" d = true ->
  ends_number (w ++ d :: x) = true.
Proof.
  intros Hw Hd. destruct w as [|c w]; cbn [app ends_number].
  - unfold is_char in Hd.
    repeat (apply orb_true_iff in Hd as [Hd|Hd]);
      apply N.eqb_eq in Hd; subst d; reflexivity.
  - simpl in Hw. apply andb_true_iff in Hw as [Hc _].
    unfold is_ws, is_char in Hc.
    repeat (apply orb_true_iff in Hc as [Hc|Hc]);
      apply N.eqb_eq in Hc; subst c; reflexivity.
Qed.

Lemma skip_then_stable {A : Type} (p : str -> scan (A * str)) (ok : A -> str -> Prop) :
  Stable p ok -> Stable (fun s => p (skip_ws s)) ok.
Proof.
  intros Hp s a r H.
  destruct (Hp _ _ _ H) as (c & E & Hne & Hs).
  destruct c as [|h c]; [contradiction|].
  destruct (skip_ws_stable _ _ _ E) as (w & -> & _ & Hw).
  exists (w ++ h :: c). split; [now renest|]. split.
  { destruct w; discriminate. }
  intros r' Hr. renest. rewrite Hw. apply Hs. exact Hr.
Qed.

Lemma JSONArray_stable (loop : str -> list pyval -> scan (pyval * str)) :
  Stable (fun s => loop s []) anything -> Stable (JSONArray loop) anything.
Proof.
  intros Hl s a r H. unfold JSONArray in H.
  destruct (skip_ws s) as [|n r0] eqn:Ew.
  { destruct (Hl _ _ _ H) as (c & E & Hne & _). destruct c; [contradiction|discriminate]. }
  destruct (is_char "]" n) eqn:Ec.
  - injection H as <- <-.
    destruct (skip_ws_stable _ _ _ Ew) as (w & -> & _ & Hw).
    exists (w ++ [n]). split; [now renest|]. split.
    { destruct w; discriminate. }
    intros r' _. unfold JSONArray. renest. cbn [app]. rewrite Hw, Ec. reflexivity.
  - destruct (Hl _ _ _ H) as (c & E & Hne & Hs).
    destruct c as [|h c]; [contradiction|]. injection E as <- ->.
    destruct (skip_ws_stable _ _ _ Ew) as (w & -> & _ & Hw).
    exists (w ++ n :: c). split; [now renest|]. split.
    { destruct w; discriminate. }
    intros r' _. unfold JSONArray. renest. rewrite Hw, Ec. apply Hs. exact I.
Qed.

Lemma JSONObject_stable (loop : str -> list (str * pyval) -> scan (pyval * str)) :
  Stable (fun s => loop s []) anything -> Stable (JSONObject loop) anything.
Proof.
  intros Hl s a r H. unfold JSONObject in H.
  destruct (skip_ws s) as [|n r0] eqn:Ew; [discriminate|].
  destruct (skip_ws_stable _ _ _ Ew) as (w & -> & _ & Hw).
  destruct (is_char "}" n) eqn:Ec.
  - injection H as <- <-.
    exists (w ++ [n]). split; [now renest|]. split.
    { destruct w; discriminate. }
    intros r' _. unfold JSONObject. renest. cbn [app]. rewrite Hw, Ec. reflexivity.
  - destruct (n =? 34) eqn:Eq; [|discriminate].
    destruct (Hl _ _ _ H) as (c & -> & Hne & Hs).
    exists (w ++ n :: c). split; [now renest|]. split.
    { destruct w; discriminate. }
    intros r' _. unfold JSONObject. renest. rewrite Hw, Ec, Eq. apply Hs. exact I.
Qed.

Lemma values_step_stable (f : nat) :
  Stable (scan_once f) follows ->
  (forall acc, Stable (fun s => values_loop f s acc) anything) ->
  forall acc, Stable (fun s => values_loop (S f) s acc) anything.
Proof.
  intros Hv Hl acc s a r H. rewrite values_loop_S in H.
  destruct (scan_once f s) as [[value r1]| |] eqn:Ev; try discriminate.
  destruct (Hv _ _ _ Ev) as (c1 & -> & Hne1 & Hs1).
  destruct (skip_ws r1) as [|n r2] eqn:Ew; [discriminate|].
  destruct (skip_ws_stable _ _ _ Ew) as (w & -> & Hall & Hw).
  destruct (is_char "]" n) eqn:Ec.
  - injection H as <- <-.
    exists (c1 ++ w ++ [n]). split; [now renest|]. split.
    { destruct c1; [contradiction|discriminate]. }
    intros r' _. rewrite values_loop_S. renest. cbn [app].
    rewrite Hs1, Hw, Ec; [reflexivity|].
    intros _. apply ends_number_delimiter; [exact Hall|]. now rewrite Ec.
  - destruct (is_char "," n) eqn:Em; [|discriminate].
    destruct (skip_then_stable _ _ (Hl (acc ++ [value])) _ _ _ H) as (c2 & -> & Hne2 & Hs2).
    exists (c1 ++ w ++ n :: c2). split; [now renest|]. split.
    { destruct c1; [contradiction|discriminate]. }
    intros r' _. rewrite values_loop_S. renest.
    rewrite Hs1, Hw, Ec, Em; [apply Hs2; exact I|].
    intros _. apply ends_number_delimiter; [exact Hall|].
    now rewrite Em, orb_true_r.
Qed.

Lemma pairs_step_stable (f : nat) :
  Stable (scan_once f) follows ->
  (forall acc, Stable (fun s => pairs_loop f s acc) anything) ->
  forall acc, Stable (fun s => pairs_loop (S f) s acc) anything.
Proof.
  intros Hv Hl acc s a r H. rewrite pairs_loop_S in H.
  destruct (scanstring s) as [[key r0]|] eqn:Ek; [|discriminate].
  destruct (scanstring_stable _ _ _ Ek) as (ck & -> & Hnek & Hsk).
  destruct (skip_ws r0) as [|colon r1] eqn:Ew0; [discriminate|].
  destruct (skip_ws_stable _ _ _ Ew0) as (w0 & -> & _ & Hw0).
  destruct (is_char ":" colon) eqn:Ecol; [|discriminate].
  destruct (scan_once f (skip_ws r1)) as [[value r2]| |] eqn:Ev; try discriminate.
  destruct (skip_then_stable _ _ Hv _ _ _ Ev) as (cv & -> & Hnev & Hsv).
  destruct (skip_ws r2) as [|n r3] eqn:Ew2; [discriminate|].
  destruct (skip_ws_stable _ _ _ Ew2) as (w2 & -> & Hall2 & Hw2).
  destruct (is_char "}" n) eqn:Ec.
  - injection H as <- <-.
    exists (ck ++ w0 ++ colon :: cv ++ w2 ++ [n]). split; [now renest|]. split.
    { destruct ck; [contradiction|discriminate]. }
    intros r' _. rewrite pairs_loop_S. renest. cbn [app].
    rewrite Hsk, Hw0, Ecol, Hsv, Hw2, Ec; [reflexivity|].
    intros _. apply ends_number_delimiter; [exact Hall2|].
    now rewrite Ec, orb_true_r.
  - destruct (is_char "," n) eqn:Em; [|discriminate].
    destruct (skip_ws r3) as [|q r4] eqn:Ew3; [discriminate|].
    destruct (skip_ws_stable _ _ _ Ew3) as (w3 & -> & _ & Hw3).
    destruct (q =? 34) eqn:Eq; [|discriminate].
    destruct (Hl _ _ _ _ H) as (c4 & -> & _ & Hs4).
    exists (ck ++ w0 ++ colon :: cv ++ w2 ++ n :: w3 ++ q :: c4).
    split; [now renest|]. split.
    { destruct ck; [contradiction|discriminate]. }
    intros r' _. rewrite pairs_loop_S. renest.
    rewrite Hsk, Hw0, Ecol, Hsv, Hw2, Ec, Em, Hw3, Eq; [apply Hs4; exact I|].
    intros _. apply ends_number_delimiter; [exact Hall2|].
    now rewrite Em, orb_true_r.
Qed.

Lemma scanner_stable (f : nat) :
  Stable (scan_once f) follows /\
  (forall acc, Stable (fun s => values_loop f s acc) anything) /\
  (forall acc, Stable (fun s => pairs_loop f s acc) anything).
Proof.
  induction f as [|f (IHv & IHa & IHo)].
  - repeat split; intros; intros s a r H; discriminate.
  - split; [|split].
    + intros s a r H. rewrite scan_once_S in H.
      destruct (scan_value_stable _ _
                  (JSONObject_stable _ (IHo [])) (JSONArray_stable _ (IHa []))
                  _ _ _ H) as (c & E & Hne & Hs).
      exists c. split; [exact E|]. split; [exact Hne|].
      intros r' Hr. rewrite scan_once_S. apply Hs. exact Hr.
    + apply values_step_stable; assumption.
    + apply pairs_step_stable; assumption.
Qed.


(** ** The budget is enough *)

Lemma scan_value_grows (po pa po' pa' : str -> scan (pyval * str)) :
  Grows po po' -> Grows pa pa' -> Grows (scan_value po pa) (scan_value po' pa').
Proof.
  intros Ho Ha s x H Hx. subst x.
  destruct s as [|n tl]; [reflexivity|].
  unfold scan_value in *.
  destruct (n =? 34); [reflexivity|].
  destruct (is_char "{" n); [now apply Ho|].
  destruct (is_char "[" n); [now apply Ha|].
  reflexivity.
Qed.

Lemma JSONArray_grows (loop loop' : str -> list pyval -> scan (pyval * str)) :
  (forall acc, Grows (fun s => loop s acc) (fun s => loop' s acc)) ->
  Grows (JSONArray loop) (JSONArray loop').
Proof.
  intros Hl s x H Hx. subst x. unfold JSONArray in *.
  destruct (skip_ws s) as [|n r]; [now apply (Hl [])|].
  destruct (is_char "]" n); [reflexivity|]. now apply (Hl []).
Qed.

Lemma JSONObject_grows (loop loop' : str -> list (str * pyval) -> scan (pyval * str)) :
  (forall acc, Grows (fun s => loop s acc) (fun s => loop' s acc)) ->
  Grows (JSONObject loop) (JSONObject loop').
Proof.
  intros Hl s x H Hx. subst x. unfold JSONObject in *.
  destruct (skip_ws s) as [|n r]; [reflexivity|].
  destruct (is_char "}" n); [reflexivity|].
  destruct (n =? 34); [|reflexivity]. now apply (Hl []).
Qed.

Lemma scanner_grows (f : nat) :
  Grows (scan_once f) (scan_once (S f)) /\
  (forall acc, Grows (fun s => values_loop f s acc) (fun s => values_loop (S f) s acc)) /\
  (forall acc, Grows (fun s => pairs_loop f s acc) (fun s => pairs_loop (S f) s acc)).
Proof.
  induction f as [|f (IHv & IHa & IHo)].
  - repeat split; intros; intros s x H Hx; subst x; contradiction Hx; reflexivity.
  - split; [|split].
    + intros s x H Hx. rewrite scan_once_S in *.
      revert H Hx. apply scan_value_grows.
      * apply JSONObject_grows. exact IHo.
      * apply JSONArray_grows. exact IHa.
    + intros acc s x H Hx. cbv beta in *. rewrite values_loop_S in *. subst x.
      destruct (scan_once f s) as [[value r1]| |] eqn:Ev.
      * rewrite (IHv _ _ Ev) by discriminate.
        destruct (skip_ws r1) as [|n r2]; [reflexivity|].
        destruct (is_char "]" n); [reflexivity|].
        destruct (is_char "," n); [|reflexivity].
        now apply (IHa (acc ++ [value])).
      * rewrite (IHv _ _ Ev) by discriminate. reflexivity.
      * contradiction Hx. reflexivity.
    + intros acc s x H Hx. cbv beta in *. rewrite pairs_loop_S in *. subst x.
      destruct (scanstring s) as [[key r0]|]; [|reflexivity].
      destruct (skip_ws r0) as [|colon r1]; [reflexivity|].
      destruct (is_char ":" colon); [|reflexivity].
      destruct (scan_once f (skip_ws r1)) as [[value r2]| |] eqn:Ev.
      * rewrite (IHv _ _ Ev) by discriminate.
        destruct (skip_ws r2) as [|n r3]; [reflexivity|].
        destruct (is_char "}" n); [reflexivity|].
        destruct (is_char "," n); [|reflexivity].
        destruct (skip_ws r3) as [|q r4]; [reflexivity|].
        destruct (q =? 34); [|reflexivity].
        now apply (IHo (acc ++ [(key, value)])).
      * rewrite (IHv _ _ Ev) by discriminate. reflexivity.
      * contradiction Hx. reflexivity.
Qed.

Lemma scan_once_grows (f f' : nat) (s : str) (x : scan (pyval * str)) :
  (f <= f')%nat -> scan_once f s = x -> x <> Fuel -> scan_once f' s = x.
Proof.
  intros Hle. induction Hle as [|f' _ IH]; [trivial|].
  intros H Hx. apply (proj1 (scanner_grows f')); [|exact Hx]. now apply IH.
Qed.

Lemma stable_shorter {A : Type} (p : str -> scan (A * str)) (ok : A -> str -> Prop)
    (s : str) (a : A) (r : str) :
  Stable p ok -> p s = Done (a, r) -> (List.length r < List.length s)%nat.
Proof.
  intros Hp H. destruct (Hp _ _ _ H) as (c & -> & Hne & _).
  rewrite length_app. destruct c; [contradiction|simpl; lia].
Qed.

Lemma skip_ws_cons_length (s : str) (h : char) (t : str) :
  skip_ws s = h :: t -> (List.length t < List.length s)%nat.
Proof.
  intros H. pose proof (skip_ws_length s) as L. rewrite H in L. simpl in L. lia.
Qed.

(** The scanner never exhausts a budget of twice the length of the text. *)
Lemma scanner_total (f : nat) :
  (forall s, (2 * List.length s < f)%nat -> scan_once f s <> Fuel) /\
  (forall s acc, (2 * List.length s + 2 <= f)%nat -> values_loop f s acc <> Fuel) /\
  (forall s acc, (2 * List.length s + 2 <= f)%nat -> pairs_loop f s acc <> Fuel).
Proof.
  induction f as [|f (IHv & IHa & IHo)].
  - repeat split; intros; lia.
  - split; [|split].
    + intros s Hf. rewrite scan_once_S.
      destruct s as [|n tl]; [discriminate|]. simpl in Hf.
      unfold scan_value.
      destruct (n =? 34).
      { destruct (scanstring tl) as [[? ?]|]; discriminate. }
      destruct (is_char "{" n).
      { unfold JSONObject.
        destruct (skip_ws tl) as [|c r] eqn:Ew; [discriminate|].
        apply skip_ws_cons_length in Ew.
        destruct (is_char "}" c); [discriminate|].
        destruct (c =? 34); [|discriminate]. apply IHo. lia. }
      destruct (is_char "[" n).
      { unfold JSONArray.
        destruct (skip_ws tl) as [|c r] eqn:Ew.
        - apply IHa. simpl. lia.
        - destruct (is_char "]" c); [discriminate|].
          apply IHa. rewrite <- Ew. pose proof (skip_ws_length tl). lia. }
      destruct (strip_prefix (lit "null") (n :: tl)); [discriminate|].
      destruct (strip_prefix (lit "true") (n :: tl)); [discriminate|].
      destruct (strip_prefix (lit "false") (n :: tl)); [discriminate|].
      destruct (match_number (n :: tl)) as [[[[i fr] e] r0]|].
      { destruct fr, e; discriminate. }
      destruct (strip_prefix (lit "NaN") (n :: tl)); [discriminate|].
      destruct (strip_prefix (lit "Infinity") (n :: tl)); [discriminate|].
      destruct (strip_prefix (lit "-Infinity") (n :: tl)); discriminate.
    + intros s acc Hf. rewrite values_loop_S.
      destruct (scan_once f s) as [[value r1]| |] eqn:Ev.
      * apply (stable_shorter _ _ _ _ _ (proj1 (scanner_stable f))) in Ev.
        destruct (skip_ws r1) as [|n r2] eqn:Ew; [discriminate|].
        apply skip_ws_cons_length in Ew.
        destruct (is_char "]" n); [discriminate|].
        destruct (is_char "," n); [|discriminate].
        apply IHa. pose proof (skip_ws_length r2). lia.
      * discriminate.
      * exfalso. revert Ev. apply IHv. lia.
    + intros s acc Hf. rewrite pairs_loop_S.
      destruct (scanstring s) as [[key r0]|] eqn:Ek; [|discriminate].
      assert (L0 : (List.length r0 < List.length s)%nat).
      { destruct (scanstring_stable _ _ _ Ek) as (c & -> & Hne & _).
        rewrite length_app. destruct c; [contradiction|simpl; lia]. }
      destruct (skip_ws r0) as [|colon r1] eqn:Ew0; [discriminate|].
      apply skip_ws_cons_length in Ew0.
      destruct (is_char ":" colon); [|discriminate].
      pose proof (skip_ws_length r1) as L1.
      destruct (scan_once f (skip_ws r1)) as [[value r2]| |] eqn:Ev.
      * apply (stable_shorter _ _ _ _ _ (proj1 (scanner_stable f))) in Ev.
        destruct (skip_ws r2) as [|n r3] eqn:Ew2; [discriminate|].
        apply skip_ws_cons_length in Ew2.
        destruct (is_char "}" n); [discriminate|].
        destruct (is_char "," n); [|discriminate].
        destruct (skip_ws r3) as [|q r4] eqn:Ew3; [discriminate|].
        apply skip_ws_cons_length in Ew3.
        destruct (q =? 34); [|discriminate].
        apply IHo. lia.
      * discriminate.
      * exfalso. revert Ev. apply IHv. lia.
Qed.

Lemma scan_once_total (s : str) : scan_once (budget s) s <> Fuel.
Proof. apply scanner_total. unfold budget. lia. Qed.

(** Any sufficient budget gives the outcome of any other. *)
Lemma scan_once_budget (f f' : nat) (s : str) (x : scan (pyval * str)) :
  scan_once f s = x -> x <> Fuel -> (2 * List.length s < f')%nat ->
  scan_once f' s = x.
Proof.
  intros H Hx Hf'.
  destruct (Nat.le_ge_cases f f') as [Hle|Hle].
  - exact (scan_once_grows _ _ _ _ Hle H Hx).
  - pose proof (proj1 (scanner_total f') s Hf') as Hy.
    pose proof (scan_once_grows _ _ _ _ Hle eq_refl Hy) as E.
    congruence.
Qed.

(** [raw_decode] fails exactly when the scanner raises. *)
Lemma raw_decode_None (s : str) :
  raw_decode s = None <-> scan_once (budget s) s = Fail.
Proof.
  unfold raw_decode. pose proof (scan_once_total s) as T.
  destruct (scan_once (budget s) s); split; congruence.
Qed.

(** What [raw_decode] returns does not depend on the text after the
    value, except that a number must not be continued. *)
Lemma raw_decode_stable (s : str) (v : pyval) (r : str) :
  raw_decode s = Some (v, r) ->
  exists c, s = c ++ r /\ c <> [] /\
            forall r', follows v r' -> raw_decode (c ++ r') = Some (v, r').
Proof.
  unfold raw_decode. intros H.
  destruct (scan_once (budget s) s) as [[v0 r0]| |] eqn:E; try discriminate.
  injection H as -> ->.
  destruct (proj1 (scanner_stable _) _ _ _ E) as (c & -> & Hne & Hs).
  exists c. split; [reflexivity|]. split; [exact Hne|].
  intros r' Hr.
  rewrite (scan_once_budget _ (budget (c ++ r')) _ _ (Hs r' Hr)).
  - reflexivity.
  - discriminate.
  - unfold budget. lia.
Qed.


(** ** Containers *)

Lemma skip_ws_split (s : str) :
  exists w, s = w ++ skip_ws s /\ forallb is_ws w = true.
Proof.
  induction s as [|c s (w & E & Hw)]; simpl.
  - exists []. split; reflexivity.
  - destruct (is_ws c) eqn:Ec.
    + exists (c :: w). split; [simpl; congruence|]. simpl. now rewrite Ec.
    + exists []. split; reflexivity.
Qed.

Lemma values_loop_list (f : nat) (s : str) (acc : list pyval) (v : pyval) (r : str) :
  values_loop f s acc = Done (v, r) -> exists l, v = PList l.
Proof.
  revert s acc; induction f as [|f IH]; intros s acc H; [discriminate|].
  rewrite values_loop_S in H.
  destruct (scan_once f s) as [[value r1]| |]; try discriminate.
  destruct (skip_ws r1) as [|n r2]; [discriminate|].
  destruct (is_char "]" n).
  - injection H as <- _. eauto.
  - destruct (is_char "," n); [|discriminate]. eapply IH. exact H.
Qed.

Lemma pairs_loop_dict (f : nat) (s : str) (acc : list (str * pyval)) (v : pyval) (r : str) :
  pairs_loop f s acc = Done (v, r) -> exists d, v = PDict d.
Proof.
  revert s acc; induction f as [|f IH]; intros s acc H; [discriminate|].
  rewrite pairs_loop_S in H.
  destruct (scanstring s) as [[key r0]|]; [|discriminate].
  destruct (skip_ws r0) as [|colon r1]; [discriminate|].
  destruct (is_char ":" colon); [|discriminate].
  destruct (scan_once f (skip_ws r1)) as [[value r2]| |]; try discriminate.
  destruct (skip_ws r2) as [|n r3]; [discriminate|].
  destruct (is_char "}" n).
  - injection H as <- _. eauto.
  - destruct (is_char "," n); [|discriminate].
    destruct (skip_ws r3) as [|q r4]; [discriminate|].
    destruct (q =? 34); [|discriminate]. eapply IH. exact H.
Qed.

Lemma JSONArray_list (f : nat) (s : str) (v : pyval) (r : str) :
  JSONArray (values_loop f) s = Done (v, r) -> exists l, v = PList l.
Proof.
  unfold JSONArray. destruct (skip_ws s) as [|n r0].
  - apply values_loop_list.
  - destruct (is_char "]" n); [|apply values_loop_list].
    intros H. injection H as <- _. eauto.
Qed.

Lemma JSONObject_dict (f : nat) (s : str) (v : pyval) (r : str) :
  JSONObject (pairs_loop f) s = Done (v, r) -> exists d, v = PDict d.
Proof.
  unfold JSONObject. destruct (skip_ws s) as [|n r0]; [discriminate|].
  destruct (is_char "}" n).
  - intros H. injection H as <- _. eauto.
  - destruct (n =? 34); [apply pairs_loop_dict|discriminate].
Qed.

(** A text that starts with a bracket scans to a list or a dict. *)
Lemma scan_once_bracket (f : nat) (b : char) (tl : str) (v : pyval) (r : str) :
  is_char "{" b || is_char "[" b = true ->
  scan_once f (b :: tl) = Done (v, r) ->
  (exists l, v = PList l) \/ (exists d, v = PDict d).
Proof.
  intros Hb H. destruct f as [|f]; [discriminate|].
  rewrite scan_once_S in H. unfold scan_value in H.
  destruct (b =? 34) eqn:Eq.
  { apply N.eqb_eq in Eq. subst b. discriminate. }
  destruct (is_char "{" b).
  { right. eapply JSONObject_dict. exact H. }
  destruct (is_char "[" b); [|discriminate].
  left. eapply JSONArray_list. exact H.
Qed.

(** A list comes from an opening bracket only. *)
Lemma scan_once_list_head (f : nat) (s : str) (l : list pyval) (r : str) :
  scan_once f s = Done (PList l, r) ->
  exists tl, s = 91 :: tl /\ exists f', JSONArray (values_loop f') tl = Done (PList l, r).
Proof.
  intros H. destruct f as [|f]; [discriminate|].
  rewrite scan_once_S in H. unfold scan_value in H.
  destruct s as [|n tl]; [discriminate|].
  destruct (n =? 34).
  { destruct (scanstring tl) as [[? ?]|]; discriminate. }
  destruct (is_char "{" n).
  { apply JSONObject_dict in H as (d & Hd). discriminate. }
  destruct (is_char "[" n) eqn:Ea.
  { unfold is_char in Ea. apply N.eqb_eq in Ea. subst n.
    exists tl. split; [reflexivity|]. exists f. exact H. }
  destruct (strip_prefix (lit "null") (n :: tl)); [discriminate|].
  destruct (strip_prefix (lit "true") (n :: tl)); [discriminate|].
  destruct (strip_prefix (lit "false") (n :: tl)); [discriminate|].
  destruct (match_number (n :: tl)) as [[[[i fr] e] r0]|].
  { destruct fr, e; discriminate. }
  destruct (strip_prefix (lit "NaN") (n :: tl)); [discriminate|].
  destruct (strip_prefix (lit "Infinity") (n :: tl)); [discriminate|].
  destruct (strip_prefix (lit "-Infinity") (n :: tl)); discriminate.
Qed.

(** The loop of an array stops right after a closing bracket. *)
Lemma values_loop_closes (f : nat) (s : str) (acc : list pyval) (v : pyval) (r : str) :
  values_loop f s acc = Done (v, r) -> exists m, s = m ++ 93 :: r.
Proof.
  revert s acc; induction f as [|f IH]; intros s acc H; [discriminate|].
  rewrite values_loop_S in H.
  destruct (scan_once f s) as [[value r1]| |] eqn:Ev; try discriminate.
  destruct (proj1 (scanner_stable f) _ _ _ Ev) as (c1 & -> & _ & _).
  destruct (skip_ws r1) as [|n r2] eqn:Ew; [discriminate|].
  destruct (skip_ws_stable _ _ _ Ew) as (w & -> & _ & _).
  destruct (is_char "]" n) eqn:Ec.
  - injection H as _ <-. unfold is_char in Ec. apply N.eqb_eq in Ec. subst n.
    exists (c1 ++ w). now renest.
  - destruct (is_char "," n); [|discriminate].
    apply IH in H as (m & Hm).
    destruct (skip_ws_split r2) as (w2 & E2 & _). rewrite Hm in E2.
    exists (c1 ++ w ++ n :: w2 ++ m). rewrite E2. now renest.
Qed.

Lemma JSONArray_closes (f : nat) (s : str) (v : pyval) (r : str) :
  JSONArray (values_loop f) s = Done (v, r) -> exists m, s = m ++ 93 :: r.
Proof.
  unfold JSONArray. intros H.
  destruct (skip_ws_split s) as (w & E & _).
  destruct (skip_ws s) as [|n r0] eqn:Ew.
  - apply values_loop_closes in H as (m & Hm). destruct m; discriminate.
  - destruct (is_char "]" n) eqn:Ec.
    + injection H as _ <-. unfold is_char in Ec. apply N.eqb_eq in Ec. subst n.
      exists w. exact E.
    + apply values_loop_closes in H as (m & Hm). rewrite Hm in E.
      exists (w ++ m). rewrite E. now renest.
Qed.

(** The text of a list: what [raw_decode] used up runs from an opening to a
    closing bracket, and nothing after it matters. *)
Lemma raw_decode_list (s : str) (l : list pyval) (r : str) :
  raw_decode s = Some (PList l, r) ->
  exists m, s = 91 :: m ++ 93 :: r /\
            forall r', raw_decode (91 :: m ++ 93 :: r') = Some (PList l, r').
Proof.
  intros H.
  destruct (raw_decode_stable _ _ _ H) as (c & E & _ & Hs).
  unfold raw_decode in H.
  destruct (scan_once (budget s) s) as [[v0 r0]| |] eqn:Es; try discriminate.
  injection H as -> ->.
  apply scan_once_list_head in Es as (tl & -> & f' & Ha).
  apply JSONArray_closes in Ha as (m & ->).
  exists m. split; [reflexivity|].
  assert (Ec : c = 91 :: m ++ [93]).
  { apply (app_inv_tail r). rewrite <- E. cbn [app]. now renest. }
  intros r'. specialize (Hs r'). rewrite Ec in Hs.
  cbn [app] in Hs. rewrite <- app_assoc in Hs. apply Hs.
  intros Hn. discriminate.
Qed.

(** A text that starts with a bracket: its value is no number, so nothing
    after the value matters. *)
Lemma raw_decode_bracket (b : char) (tl : str) (v : pyval) (r : str) :
  is_char "{" b || is_char "[" b = true ->
  raw_decode (b :: tl) = Some (v, r) ->
  is_number v = false.
Proof.
  intros Hb H. unfold raw_decode in H.
  destruct (scan_once (budget (b :: tl)) (b :: tl)) as [[v0 r0]| |] eqn:Es;
    try discriminate.
  injection H as -> ->.
  destruct (scan_once_bracket _ _ _ _ _ Hb Es) as [(l & ->)|(d & ->)]; reflexivity.
Qed.

Lemma raw_decode_append (c tail : str) (v : pyval) :
  raw_decode c = Some (v, []) -> is_number v = false ->
  raw_decode (c ++ tail) = Some (v, tail).
Proof.
  intros H Hv.
  destruct (raw_decode_stable _ _ _ H) as (c0 & E & _ & Hs).
  rewrite app_nil_r in E. subst c0. apply Hs. intros Hn. congruence.
Qed.

(** ** Stripping and searching *)

Lemma lstrip_app (a : str) (h : char) (x : str) :
  isspace h = false -> lstrip (a ++ h :: x) = lstrip a ++ h :: x.
Proof.
  intros Hh. induction a as [|c a IH]; cbn [app lstrip].
  - rewrite Hh. reflexivity.
  - destruct (isspace c); [exact IH|reflexivity].
Qed.

Lemma rstrip_app (x : str) (h : char) (b : str) :
  isspace h = false -> rstrip (x ++ h :: b) = x ++ h :: rstrip b.
Proof.
  intros Hh. unfold rstrip.
  rewrite rev_app_distr. cbn [rev]. rewrite <- app_assoc. cbn [app].
  rewrite (lstrip_app _ _ _ Hh), rev_app_distr. cbn [rev].
  rewrite rev_involutive, <- app_assoc. reflexivity.
Qed.

Lemma lstrip_all (s : str) : forallb isspace s = true -> lstrip s = [].
Proof.
  induction s as [|c s IH]; simpl; [reflexivity|].
  intros H. apply andb_true_iff in H as [-> H]. exact (IH H).
Qed.

Lemma strip_all (s : str) : forallb isspace s = true -> strip s = [].
Proof. intros H. unfold strip. rewrite (lstrip_all _ H). reflexivity. Qed.

(** Stripping leaves alone a text that starts and ends with characters
    that are no spaces. *)
Lemma strip_around (a : str) (h : char) (m : str) (l : char) (b : str) :
  isspace h = false -> isspace l = false ->
  strip (a ++ h :: m ++ l :: b) = lstrip a ++ h :: m ++ l :: rstrip b.
Proof.
  intros Hh Hl. unfold strip. rewrite (lstrip_app _ _ _ Hh).
  change (lstrip a ++ h :: m ++ l :: b) with (lstrip a ++ (h :: m) ++ l :: b).
  rewrite app_assoc, (rstrip_app _ _ _ Hl), <- app_assoc. reflexivity.
Qed.

Lemma re_search_app (u : str) (b : char) (x : str) :
  re_search u = None -> is_char "{" b || is_char "[" b = true ->
  re_search (u ++ b :: x) = Some (List.length u).
Proof.
  intros Hu Hb. induction u as [|c u IH]; cbn [app re_search List.length].
  - rewrite Hb. reflexivity.
  - simpl in Hu. destruct (is_char "{" c || is_char "[" c); [discriminate|].
    destruct (re_search u); [discriminate|]. rewrite IH by reflexivity. reflexivity.
Qed.

Lemma re_search_None_app (a b : str) :
  re_search a = None -> re_search b = None -> re_search (a ++ b) = None.
Proof.
  intros Ha Hb. induction a as [|c a IH]; cbn [app re_search]; [exact Hb|].
  simpl in Ha. destruct (is_char "{" c || is_char "[" c); [discriminate|].
  destruct (re_search a); [discriminate|]. rewrite IH by reflexivity. reflexivity.
Qed.

Lemma re_search_lstrip (s : str) : re_search s = None -> re_search (lstrip s) = None.
Proof.
  induction s as [|c s IH]; simpl; [trivial|].
  destruct (is_char "{" c || is_char "[" c) eqn:Eb; [discriminate|].
  destruct (re_search s) eqn:Es; [discriminate|]. intros _.
  destruct (isspace c); [apply IH; reflexivity|].
  simpl. rewrite Eb, Es. reflexivity.
Qed.

Lemma is_ws_no_bracket (w : str) : forallb is_ws w = true -> re_search w = None.
Proof.
  induction w as [|c w IH]; simpl; [reflexivity|].
  intros H. apply andb_true_iff in H as [Hc H]. rewrite (IH H).
  unfold is_ws, is_char in Hc.
  repeat (apply orb_true_iff in Hc as [Hc|Hc]);
    apply N.eqb_eq in Hc; subst c; reflexivity.
Qed.

Lemma skipn_length_app (u x : str) : skipn (List.length u) (u ++ x) = x.
Proof. induction u as [|c u IH]; simpl; [reflexivity|exact IH]. Qed.

Lemma loads_Some (s : str) (v : pyval) :
  loads s = Some v ->
  exists w body r, s = w ++ body /\ forallb is_ws w = true /\
                   raw_decode body = Some (v, r) /\ forallb is_ws r = true.
Proof.
  intros H. destruct (skip_ws_split s) as (w & E & Hw).
  assert (H' : match raw_decode (skip_ws s) with
               | Some (obj, r) => match skip_ws r with [] => Some obj | _ :: _ => None end
               | None => None
               end = Some v).
  { unfold loads in H. destruct s as [|c s']; [exact H|].
    destruct (c =? 65279) eqn:Ec.
    - apply N.eqb_eq in Ec. subst c. discriminate.
    - destruct c as [|p]; [exact H|].
      repeat (destruct p as [p|p|]; try exact H); discriminate. }
  destruct (raw_decode (skip_ws s)) as [[obj r]|] eqn:Er; [|discriminate].
  destruct (skip_ws r) eqn:Es; [|discriminate]. injection H' as ->.
  exists w, (skip_ws s), r. repeat split; auto using skip_ws_nil.
Qed.

(** ** The recovery of process_llm_output_to_a2ui_parts *)

Lemma re_search_None (s : str) : re_search s = None <-> no_bracket s = true.
Proof.
  induction s as [|c s IH]; simpl; [tauto|].
  destruct (is_char "{" c || is_char "[" c); simpl.
  - split; discriminate.
  - rewrite <- IH. destruct (re_search s); simpl; split; congruence.
Qed.

Lemma re_search_strip (s : str) : re_search s = None -> re_search (strip s) = None.
Proof.
  intros H. unfold strip, rstrip.
  apply re_search_lstrip in H. apply re_search_None in H. apply re_search_None.
  unfold no_bracket in *. rewrite forallb_forall in *.
  intros c Hc. apply In_rev in Hc.
  assert (Hsub : forall t, re_search t = None -> re_search (lstrip t) = None)
    by exact re_search_lstrip.
  assert (Hrev : re_search (rev (lstrip s)) = None).
  { apply re_search_None. unfold no_bracket. rewrite forallb_forall.
    intros x Hx. apply In_rev in Hx. exact (H x Hx). }
  apply Hsub in Hrev. apply re_search_None in Hrev.
  unfold no_bracket in Hrev. rewrite forallb_forall in Hrev. exact (Hrev c Hc).
Qed.

Lemma re_search_Some (s : str) (start : nat) :
  re_search s = Some start ->
  exists b tl, skipn start s = b :: tl /\ is_char "{" b || is_char "[" b = true.
Proof.
  revert start; induction s as [|c s IH]; intros start H; [discriminate|].
  simpl in H. destruct (is_char "{" c || is_char "[" c) eqn:Eb.
  - injection H as <-. exists c, s. split; [reflexivity|exact Eb].
  - destruct (re_search s) as [n|]; [|discriminate]. injection H as <-.
    simpl. apply IH. reflexivity.
Qed.

Lemma process_eq (ext : Externals) (s : str) (start : nat) :
  s <> [] -> re_search (strip s) = Some start ->
  process_llm_output_to_a2ui_parts ext s =
  parts_of ext (strip s) (two_stage (skipn start (strip s))).
Proof.
  intros Hs Hr. destruct s as [|c s]; [contradiction|].
  unfold process_llm_output_to_a2ui_parts. cbv zeta. rewrite Hr.
  unfold two_stage, prefix_tolerant, suffix_trim, parts_of, message_records.
  destruct (raw_decode (skipn start (strip (c :: s)))) as [[d r]|]; simpl.
  - destruct d as [| | | | |l|d]; try reflexivity.
    destruct (dict_get d (lit "messages")) as [[| | | | |ms|]|]; reflexivity.
  - destruct (Z.max _ _ =? -1)%Z; [reflexivity|].
    destruct (loads _) as [d|]; [|reflexivity].
    destruct d as [| | | | |l|d]; try reflexivity.
    destruct (dict_get d (lit "messages")) as [[| | | | |ms|]|]; reflexivity.
Qed.

Lemma process_no_json (ext : Externals) (s : str) :
  s <> [] -> re_search (strip s) = None ->
  process_llm_output_to_a2ui_parts ext s = [TextPart (strip s)].
Proof.
  intros Hs Hr. destruct s as [|c s]; [contradiction|].
  unfold process_llm_output_to_a2ui_parts. cbv zeta. rewrite Hr. reflexivity.
Qed.

(** ** Claims on process_llm_output_to_a2ui_parts *)

(** C9: the empty output gives no part at all. *)
Theorem empty_output_no_parts (ext : Externals) :
  process_llm_output_to_a2ui_parts ext [] = [].
Proof. reflexivity. Qed.

(** C10: an output that is not empty and holds nothing but whitespace is
    not the empty case: it gives one text part, with the empty text that
    stripping leaves. *)
Theorem whitespace_only_output (ext : Externals) (llm_output : str) :
  llm_output <> [] -> forallb isspace llm_output = true ->
  process_llm_output_to_a2ui_parts ext llm_output = [TextPart []].
Proof.
  intros Hne Hws.
  rewrite (process_no_json ext _ Hne); rewrite (strip_all _ Hws); reflexivity.
Qed.

Lemma whitespace_only_output_witness :
  process_llm_output_to_a2ui_parts sample_externals (lit "   ") = [TextPart []].
Proof.
  apply (whitespace_only_output sample_externals (lit "   ")).
  - discriminate.
  - reflexivity.
Defined.

(** C1, as amended: an output made of prose without any opening brace or
    bracket, then a valid JSON array, then any trailing characters, gives
    one part for each element of the array, in order. *)
Theorem array_after_prose_recovered (ext : Externals)
    (prose array trailing : str) (elements : list pyval) :
  re_search prose = None ->
  loads array = Some (PList elements) ->
  process_llm_output_to_a2ui_parts ext (prose ++ array ++ trailing)
  = map (create_a2ui_part ext) elements.
Proof.
  intros Hp Hl.
  destruct (loads_Some _ _ Hl) as (w & body & r & -> & Hw & Hb & Hr).
  destruct (raw_decode_list _ _ _ Hb) as (m & -> & Hs).
  set (text := prose ++ (w ++ 91 :: m ++ 93 :: r) ++ trailing).
  assert (Etext : text = (prose ++ w) ++ 91 :: m ++ 93 :: (r ++ trailing)).
  { unfold text. now renest. }
  assert (Hne : text <> []).
  { rewrite Etext. destruct (prose ++ w); discriminate. }
  assert (Estrip : strip text
                   = lstrip (prose ++ w) ++ 91 :: m ++ 93 :: rstrip (r ++ trailing)).
  { rewrite Etext. apply strip_around; reflexivity. }
  assert (Hu : re_search (lstrip (prose ++ w)) = None).
  { apply re_search_lstrip, re_search_None_app; [exact Hp|].
    apply is_ws_no_bracket, Hw. }
  rewrite (process_eq ext text (List.length (lstrip (prose ++ w))) Hne).
  - rewrite Estrip, skipn_length_app.
    unfold two_stage, prefix_tolerant. rewrite Hs. reflexivity.
  - rewrite Estrip. apply re_search_app; [exact Hu|reflexivity].
Qed.

Lemma array_after_prose_recovered_witness :
  process_llm_output_to_a2ui_parts sample_externals
    (lit "Here you go: " ++ lit "[{`a`:1}, {`b`:2}]" ++ lit " Anything else?")
  = map (create_a2ui_part sample_externals)
        [PDict [(lit "a", PInt 1)]; PDict [(lit "b", PInt 2)]].
Proof.
  apply (array_after_prose_recovered sample_externals
           (lit "Here you go: ") (lit "[{`a`:1}, {`b`:2}]") (lit " Anything else?")).
  - reflexivity.
  - reflexivity.
Defined.

(** C1, as stated, fails on prose that holds a bracket: the search stops
    at the bracket of the prose, neither parse succeeds from there, and
    the whole output comes back as one text part. *)
Lemma prose_with_bracket_not_recovered :
  loads (lit "[{`a`:1}]") = Some (PList [PDict [(lit "a", PInt 1)]]) /\
  process_llm_output_to_a2ui_parts sample_externals
    (lit "Items [below]: " ++ lit "[{`a`:1}]" ++ [])
  = [TextPart (lit "Items [below]: [{`a`:1}]")] /\
  process_llm_output_to_a2ui_parts sample_externals
    (lit "Items [below]: " ++ lit "[{`a`:1}]" ++ [])
  <> map (create_a2ui_part sample_externals) [PDict [(lit "a", PInt 1)]].
Proof.
  split; [reflexivity|]. split; [reflexivity|].
  vm_compute. discriminate.
Qed.

(** C3, as amended: when the output is not empty and nothing can be
    recovered from it (no opening brace or bracket, or both parses fail),
    the result is one text part that holds the output with the whitespace
    at both ends stripped. *)
Theorem unrecoverable_output_as_text (ext : Externals) (llm_output : str) :
  llm_output <> [] ->
  re_search llm_output = None \/
  (exists start,
     re_search (strip llm_output) = Some start /\
     prefix_tolerant (skipn start (strip llm_output)) = None /\
     suffix_trim (skipn start (strip llm_output)) = None) ->
  process_llm_output_to_a2ui_parts ext llm_output = [TextPart (strip llm_output)].
Proof.
  intros Hne [Hr|(start & Hr & H1 & H2)].
  - apply process_no_json; [exact Hne|]. apply re_search_strip, Hr.
  - rewrite (process_eq ext _ start Hne Hr).
    unfold two_stage. rewrite H1, H2. reflexivity.
Qed.

Lemma unrecoverable_output_as_text_witness :
  process_llm_output_to_a2ui_parts sample_externals (lit " {oops ")
  = [TextPart (strip (lit " {oops "))].
Proof.
  apply (unrecoverable_output_as_text sample_externals (lit " {oops ")).
  - discriminate.
  - right. exists 0%nat. repeat split; reflexivity.
Defined.

(** C3, as stated, fails: the text of the fallback part is the stripped
    output, not the output as it came. *)
Lemma fallback_text_is_stripped :
  re_search (lit " no json here") = None /\
  process_llm_output_to_a2ui_parts sample_externals (lit " no json here")
  = [TextPart (lit "no json here")] /\
  process_llm_output_to_a2ui_parts sample_externals (lit " no json here")
  <> [TextPart (lit " no json here")].
Proof.
  split; [reflexivity|]. split; [reflexivity|].
  vm_compute. discriminate.
Qed.

(** C5: the recovery has two stages in a fixed order.  From the first
    opening brace or bracket on, a JSON value at the start of the text is
    taken whatever text trails it; only when no value starts the text is
    the strict parse up to the last closing brace or bracket tried.  The
    example of the specification gives the one record it names. *)
Theorem two_stage_recovery (ext : Externals) :
  (forall llm_output start,
     llm_output <> [] -> re_search (strip llm_output) = Some start ->
     (forall value trailing data,
        skipn start (strip llm_output) = value ++ trailing ->
        raw_decode value = Some (data, []) ->
        process_llm_output_to_a2ui_parts ext llm_output
        = parts_of ext (strip llm_output) (Some data)) /\
     (prefix_tolerant (skipn start (strip llm_output)) = None ->
      process_llm_output_to_a2ui_parts ext llm_output
      = parts_of ext (strip llm_output) (suffix_trim (skipn start (strip llm_output)))))
  /\ process_llm_output_to_a2ui_parts ext (lit "Sure! {`messages`:[{`a`:1}]}")
     = [create_a2ui_part ext (PDict [(lit "a", PInt 1)])].
Proof.
  split; [|reflexivity].
  intros s start Hne Hr. split.
  - intros value trailing data Ev Hv.
    rewrite (process_eq ext s start Hne Hr). f_equal.
    destruct (re_search_Some _ _ Hr) as (b & tl & Eb & Hb).
    rewrite Ev in Eb |- *.
    destruct value as [|c value]; [discriminate|].
    injection Eb as -> _.
    pose proof (raw_decode_bracket _ _ _ _ Hb Hv) as Hn.
    unfold two_stage, prefix_tolerant.
    rewrite (raw_decode_append _ trailing _ Hv Hn). reflexivity.
  - intros H1. rewrite (process_eq ext s start Hne Hr).
    unfold two_stage. rewrite H1. reflexivity.
Qed.

Lemma two_stage_recovery_witness :
  process_llm_output_to_a2ui_parts sample_externals (lit "ok: [1, 2] done")
  = parts_of sample_externals (lit "ok: [1, 2] done") (Some (PList [PInt 1; PInt 2])).
Proof.
  apply (proj1 (proj1 (two_stage_recovery sample_externals)
                  (lit "ok: [1, 2] done") 4%nat ltac:(discriminate) eq_refl)
           (lit "[1, 2]") (lit " done")); reflexivity.
Defined.

(** C6: what was parsed is normalised by its shape.  A list gives its
    elements in order; a dict with a list under the key messages gives
    the elements of that list; any other dict gives itself as the one
    record. *)
Theorem normalization_by_shape (ext : Externals) (llm_output : str)
    (start : nat) (data : pyval) :
  llm_output <> [] -> re_search (strip llm_output) = Some start ->
  two_stage (skipn start (strip llm_output)) = Some data ->
  (forall items, data = PList items ->
     process_llm_output_to_a2ui_parts ext llm_output
     = map (create_a2ui_part ext) items) /\
  (forall d items, data = PDict d ->
     dict_get d (lit "messages") = Some (PList items) ->
     process_llm_output_to_a2ui_parts ext llm_output
     = map (create_a2ui_part ext) items) /\
  (forall d, data = PDict d ->
     (forall items, dict_get d (lit "messages") <> Some (PList items)) ->
     process_llm_output_to_a2ui_parts ext llm_output
     = [create_a2ui_part ext (PDict d)]).
Proof.
  intros Hne Hr Hd. rewrite (process_eq ext _ start Hne Hr), Hd.
  split; [|split].
  - intros items ->. reflexivity.
  - intros d items -> Hm. unfold parts_of, message_records. rewrite Hm. reflexivity.
  - intros d -> Hm. unfold parts_of, message_records.
    destruct (dict_get d (lit "messages")) as [[| | | | |ms|]|]; try reflexivity.
    contradiction (Hm ms). reflexivity.
Qed.

Lemma normalization_by_shape_witness :
  process_llm_output_to_a2ui_parts sample_externals (lit "{`id`:`x`}")
  = [create_a2ui_part sample_externals (PDict [(lit "id", PStr (lit "x"))])].
Proof.
  apply (proj2 (proj2 (normalization_by_shape sample_externals (lit "{`id`:`x`}")
                         0%nat (PDict [(lit "id", PStr (lit "x"))])
                         ltac:(discriminate) eq_refl eq_refl))
           [(lit "id", PStr (lit "x"))] eq_refl).
  intros items. discriminate.
Defined.

(** The strict parse of the second stage cannot succeed where the first
    stage failed: a text that [json.loads] accepts up to the last closing
    brace or bracket is a value at the start of the whole text, which the
    first stage would have taken. *)
Theorem suffix_trim_never_rescues (llm_output : str) (start : nat) :
  re_search (strip llm_output) = Some start ->
  prefix_tolerant (skipn start (strip llm_output)) = None ->
  suffix_trim (skipn start (strip llm_output)) = None.
Proof.
  intros Hr H1.
  destruct (re_search_Some _ _ Hr) as (b & tl & Eb & Hb).
  rewrite Eb in H1 |- *. unfold suffix_trim.
  set (k := Z.to_nat (Z.max (rfind "}" (b :: tl)) (rfind "]" (b :: tl)) + 1)).
  destruct (Z.max _ _ =? -1)%Z; [reflexivity|].
  destruct (loads (firstn k (b :: tl))) as [v|] eqn:El; [|reflexivity].
  exfalso.
  destruct (loads_Some _ _ El) as (w & body & r & E & Hw & Hbody & _).
  destruct k as [|k]; [destruct w, body; discriminate|].
  cbn [firstn] in E.
  assert (Ew : w = []).
  { destruct w as [|c w]; [reflexivity|]. injection E as <- _.
    simpl in Hw. apply andb_true_iff in Hw as [Hc _].
    unfold is_ws, is_char in Hc.
    repeat (apply orb_true_iff in Hc as [Hc|Hc]);
      apply N.eqb_eq in Hc; subst b; discriminate. }
  subst w. cbn [app] in E. subst body.
  pose proof (raw_decode_bracket _ _ _ _ Hb Hbody) as Hn.
  destruct (raw_decode_stable _ _ _ Hbody) as (c & Ec & _ & Hs).
  pose proof (firstn_skipn (S k) (b :: tl)) as Esplit.
  cbn [firstn] in Esplit. rewrite Ec, <- app_assoc in Esplit.
  unfold prefix_tolerant in H1. rewrite <- Esplit in H1.
  rewrite Hs in H1; [discriminate|]. intros Hx. congruence.
Qed.

Lemma suffix_trim_never_rescues_witness :
  suffix_trim (skipn 0 (strip (lit "[1, 2"))) = None.
Proof.
  apply (suffix_trim_never_rescues (lit "[1, 2") 0); reflexivity.
Defined.

(** ** Claims on the handler *)

Lemma str_contains_app (a sub b : str) : str_contains sub (a ++ sub ++ b) = true.
Proof.
  induction a as [|c a IH]; cbn [app].
  - destruct (sub ++ b) eqn:E; simpl; rewrite <- ?E, strip_prefix_app; reflexivity.
  - simpl. destruct (strip_prefix sub (c :: a ++ sub ++ b)); [reflexivity|exact IH].
Qed.

Lemma find_user_action_none (ext : Externals) (ps : list Part) :
  existsb has_user_action ps = false -> find_user_action ext ps = Return None.
Proof.
  induction ps as [|p ps IH]; simpl; [reflexivity|].
  intros H. apply orb_false_iff in H as [Hp H].
  destruct p as [t|f|data]; try exact (IH H).
  simpl in Hp. destruct (dict_get data (lit "userAction")); [discriminate|exact (IH H)].
Qed.

(** The search stops at the first data part with the key: what comes
    after it is not looked at. *)
Lemma find_user_action_first (ext : Externals) (pre post : list Part)
    (data : pydict) (payload : pyval) :
  existsb has_user_action pre = false ->
  dict_get data (lit "userAction") = Some payload ->
  find_user_action ext (pre ++ DataPart data :: post)
  = bind (user_action_of ext payload) (fun d => Return (Some d)).
Proof.
  intros Hpre Hd. induction pre as [|p pre IH]; cbn [app find_user_action].
  - rewrite Hd. reflexivity.
  - simpl in Hpre. apply orb_false_iff in Hpre as [Hp Hpre].
    destruct p as [t|f|d]; try exact (IH Hpre).
    simpl in Hp. destruct (dict_get d (lit "userAction")); [discriminate|exact (IH Hpre)].
Qed.

Lemma context_entry_record (ext : Externals) (d : pymap) (e : ContextEntry) :
  context_entry ext d (entry_record e)
  = Return (context_set ext d (PStr (key e)) (unwrap (value e))).
Proof. destruct e as [k [s|n|b|p]]; reflexivity. Qed.

Lemma context_entries_records (ext : Externals) (entries : list ContextEntry) (d : pymap) :
  context_entries ext d (map entry_record entries)
  = Return (fold_left (fun d e => context_set ext d (PStr (key e)) (unwrap (value e)))
                      entries d).
Proof.
  revert d; induction entries as [|e entries IH]; intros d; [reflexivity|].
  cbn [map context_entries fold_left]. rewrite context_entry_record. cbn [bind].
  apply IH.
Qed.

(** C7: only the first data part with the key userAction is used, whatever
    parts come after it; its context entries are unwrapped by their tags
    into a plain mapping; the directive holds the name of the action and
    that mapping. *)
Theorem user_action_directive (ext : Externals) (pre post : list Part) (data : pydict) :
  existsb has_user_action pre = false ->
  (forall payload,
     dict_get data (lit "userAction") = Some payload ->
     find_user_action ext (pre ++ DataPart data :: post)
     = find_user_action ext [DataPart data]) /\
  (forall payload name entries,
     dict_get data (lit "userAction") = Some (PDict payload) ->
     dict_get payload (lit "name") = Some (PStr name) ->
     dict_get payload (lit "context") = Some (PList (map entry_record entries)) ->
     let mapping := dumps_dict ext (context_mapping ext entries) in
     find_user_action ext (pre ++ DataPart data :: post)
     = Return (Some (directive name mapping)) /\
     str_contains name (directive name mapping) = true /\
     str_contains mapping (directive name mapping) = true).
Proof.
  intros Hpre. split.
  - intros payload Hd.
    rewrite (find_user_action_first ext pre post data _ Hpre Hd).
    exact (eq_sym (find_user_action_first ext [] [] data _ eq_refl Hd)).
  - intros payload name entries Hd Hn Hc mapping. split; [|split].
    + rewrite (find_user_action_first ext pre post data _ Hpre Hd).
      unfold user_action_of, py_get. rewrite Hn, Hc. cbn [bind py_iter].
      rewrite context_entries_records. reflexivity.
    + unfold directive. apply str_contains_app.
    + unfold directive. rewrite !app_assoc, <- app_assoc. apply str_contains_app.
Qed.

Lemma user_action_directive_witness :
  find_user_action sample_externals
    ([TextPart (lit "hello")]
     ++ DataPart
          [(lit "userAction",
            PDict [(lit "name", PStr (lit "select"));
                   (lit "context",
                    PList [PDict [(lit "key", PStr (lit "color"));
                                  (lit "value",
                                   PDict [(lit "literalString", PStr (lit "red"))])]])])]
     :: [DataPart [(lit "userAction", PStr (lit "ignored"))]])
  = Return (Some (lit "User initiated action: 'select'. Action context data: {`color`: `red`}. Please use the appropriate tool to handle this.")).
Proof.
  refine (eq_trans
            (proj1 (proj2 (user_action_directive sample_externals
                      [TextPart (lit "hello")]
                      [DataPart [(lit "userAction", PStr (lit "ignored"))]]
                      [(lit "userAction",
                        PDict [(lit "name", PStr (lit "select"));
                               (lit "context",
                                PList [PDict [(lit "key", PStr (lit "color"));
                                              (lit "value",
                                               PDict [(lit "literalString",
                                                       PStr (lit "red"))])]])])]
                      eq_refl)
                      [(lit "name", PStr (lit "select"));
                       (lit "context",
                        PList [PDict [(lit "key", PStr (lit "color"));
                                      (lit "value",
                                       PDict [(lit "literalString", PStr (lit "red"))])]])]
                      (lit "select")
                      [{| key := lit "color"; value := literalString (lit "red") |}]
                      eq_refl eq_refl eq_refl))
            _).
  vm_compute. reflexivity.
Defined.

(** C8: with no text of the user and no data part with the key
    userAction, the handler returns and changes nothing: no task, no
    status update, no extension activated. *)
Theorem empty_interaction_no_effect (ext : Externals) (self : A2UIAgentExecutor)
    (context : RequestContext) (w : World) :
  user_text context = [] ->
  (forall m, message context = Some m -> existsb has_user_action (parts m) = false) ->
  execute ext self context w = (Return tt, w).
Proof.
  intros Ht Hm. unfold execute, mbind, lift. unfold user_text in Ht. rewrite Ht.
  destruct (message context) as [m|].
  - rewrite (find_user_action_none ext _ (Hm m eq_refl)). reflexivity.
  - reflexivity.
Qed.

Lemma empty_interaction_no_effect_witness :
  execute sample_externals {| runner := idle_runner |}
    {| user_input := Some [];
       message := Some {| parts := [DataPart [(lit "other", PNone)]] |};
       current_task := None; context_id := lit "ctx"; requested_extensions := [] |}
    fresh_world
  = (Return tt, fresh_world).
Proof.
  apply (empty_interaction_no_effect sample_externals).
  - reflexivity.
  - intros m H. injection H as <-. reflexivity.
Defined.

(** C4, as amended: when the userAction payload, if there is one, is read
    without an exception, a non-empty interaction makes the handler
    announce the task if it had to make one, move it to working, and then
    to exactly one terminal state before it returns: completed with the
    recovered parts, or failed with one text part that holds the error
    when the run of the model raises. *)
Theorem execute_lifecycle (ext : Externals) (self : A2UIAgentExecutor)
    (context : RequestContext) (w : World) (user_action_data : option str) :
  match message context with
  | Some m => find_user_action ext (parts m)
  | None => Return None
  end = Return user_action_data ->
  user_text context <> [] \/ user_action_data <> None ->
  let task := task_for ext context in
  let run := runner self (lit "user") (context_id context)
                    (prompt context user_action_data) in
  let events := creation ext context
                ++ [StatusUpdate (task_id task) (task_context_id task) working None false;
                    terminal_update ext task run] in
  execute ext self context w
  = (Return tt,
     {| event_queue := event_queue w ++ events;
        activated_extensions :=
          try_activate_a2ui_extension ext context (activated_extensions w) |})
  /\ transitions events
     = [working; match raised run with Some _ => failed | None => completed end].
Proof.
  intros Hf Hne task run events. split.
  - unfold execute, mbind, lift. rewrite Hf.
    fold (user_text context).
    assert (Hbody : forall (A : Type) (x y : A),
              match user_text context, user_action_data with
              | [], None => x
              | _, _ => y
              end = y).
    { intros A x y. destruct (user_text context), user_action_data; try reflexivity.
      destruct Hne as [H|H]; contradiction H; reflexivity. }
    rewrite Hbody.
    unfold events, creation, terminal_update, task, task_for, run, prompt,
      activate, update_status, enqueue_event, ret.
    fold (user_text context).
    destruct (current_task context) as [t|]; cbn [event_queue activated_extensions];
      destruct (raised _); cbn [event_queue activated_extensions];
      rewrite <- ?app_assoc; reflexivity.
  - unfold events, creation, terminal_update.
    destruct (current_task context); destruct (raised run); reflexivity.
Qed.

Lemma execute_lifecycle_witness :
  execute sample_externals {| runner := idle_runner |}
    {| user_input := Some (lit "show the list"); message := None;
       current_task := None; context_id := lit "ctx"; requested_extensions := [] |}
    fresh_world
  = (Return tt,
     {| event_queue :=
          [TaskEvent {| task_id := lit "task-1"; task_context_id := lit "ctx-1" |};
           StatusUpdate (lit "task-1") (lit "ctx-1") working None false;
           StatusUpdate (lit "task-1") (lit "ctx-1") completed
             (Some (new_agent_parts_message [] (lit "ctx-1") (lit "task-1"))) true];
        activated_extensions := [] |}).
Proof.
  refine (eq_trans
            (proj1 (execute_lifecycle sample_externals {| runner := idle_runner |}
                      {| user_input := Some (lit "show the list"); message := None;
                         current_task := None; context_id := lit "ctx";
                         requested_extensions := [] |}
                      fresh_world None eq_refl (or_introl _)))
            _).
  - discriminate.
  - vm_compute. reflexivity.
Defined.

(** C4, as stated, fails: text of the user together with a userAction
    payload that is no record makes the handler raise before it has made
    or moved any task. *)
Lemma malformed_action_no_lifecycle :
  let context :=
    {| user_input := Some (lit "hi");
       message := Some {| parts := [DataPart [(lit "userAction", PStr (lit "oops"))]] |};
       current_task := None; context_id := lit "ctx"; requested_extensions := [] |} in
  user_text context <> [] /\
  execute sample_externals {| runner := idle_runner |} context fresh_world
  = (Raise AttributeError, fresh_world).
Proof. split; [discriminate|reflexivity]. Qed.

(** C2, on the code: cancel does raise, and changes nothing, but what it
    raises is a NameError, since ServerError is bound nowhere in the
    module; the unsupported-operation error is never built. *)
Theorem cancel_raises_name_error (self : A2UIAgentExecutor)
    (request : RequestContext) (w : World) :
  cancel self request w = (Raise (NameError "ServerError"), w).
Proof. reflexivity. Qed.

(** * Further properties *)

(** ** What the recovery never returns *)

Lemma suffix_trim_fails (b : char) (tl : str) :
  is_char "{" b || is_char "[" b = true ->
  raw_decode (b :: tl) = None -> suffix_trim (b :: tl) = None.
Proof.
  intros Hb H1. unfold suffix_trim.
  set (k := Z.to_nat (Z.max (rfind "}" (b :: tl)) (rfind "]" (b :: tl)) + 1)).
  destruct (Z.max _ _ =? -1)%Z; [reflexivity|].
  destruct (loads (firstn k (b :: tl))) as [v|] eqn:El; [|reflexivity].
  exfalso.
  destruct (loads_Some _ _ El) as (w & body & r & E & Hw & Hbody & _).
  destruct k as [|k]; [destruct w, body; discriminate|].
  cbn [firstn] in E.
  assert (Ew : w = []).
  { destruct w as [|c w]; [reflexivity|]. injection E as <- _.
    simpl in Hw. apply andb_true_iff in Hw as [Hc _].
    unfold is_ws, is_char in Hc.
    repeat (apply orb_true_iff in Hc as [Hc|Hc]);
      apply N.eqb_eq in Hc; subst b; discriminate. }
  subst w. cbn [app] in E. subst body.
  pose proof (raw_decode_bracket _ _ _ _ Hb Hbody) as Hn.
  destruct (raw_decode_stable _ _ _ Hbody) as (c & Ec & _ & Hs).
  pose proof (firstn_skipn (S k) (b :: tl)) as Esplit.
  cbn [firstn] in Esplit. rewrite Ec, <- app_assoc in Esplit.
  rewrite <- Esplit in H1.
  rewrite Hs in H1; [discriminate|]. intros Hx. congruence.
Qed.

Lemma raw_decode_container (b : char) (tl : str) (v : pyval) (r : str) :
  is_char "{" b || is_char "[" b = true ->
  raw_decode (b :: tl) = Some (v, r) ->
  (exists l, v = PList l) \/ (exists d, v = PDict d).
Proof.
  intros Hb H. unfold raw_decode in H.
  destruct (scan_once (budget (b :: tl)) (b :: tl)) as [[v0 r0]| |] eqn:Es;
    try discriminate.
  injection H as -> ->. exact (scan_once_bracket _ _ _ _ _ Hb Es).
Qed.

Lemma two_stage_container (s : str) (start : nat) (data : pyval) :
  re_search s = Some start -> two_stage (skipn start s) = Some data ->
  (exists l, data = PList l) \/ (exists d, data = PDict d).
Proof.
  intros Hr H. destruct (re_search_Some _ _ Hr) as (b & tl & Eb & Hb).
  rewrite Eb in H. unfold two_stage, prefix_tolerant in H.
  destruct (raw_decode (b :: tl)) as [[d r]|] eqn:Ed.
  - injection H as <-. exact (raw_decode_container _ _ _ _ Hb Ed).
  - simpl in H. rewrite (suffix_trim_fails _ _ Hb Ed) in H. discriminate.
Qed.

(** The value the two stages recover is always a list or a dict, so the
    branch for any other parsed value is never taken: the result is the
    text fallback or one part for each message record, and the string form
    of a parsed scalar never comes out. *)
Theorem recovered_value_is_container (ext : Externals) (llm_output : str) :
  (forall start data,
     re_search (strip llm_output) = Some start ->
     two_stage (skipn start (strip llm_output)) = Some data ->
     (exists items, data = PList items) \/ (exists d, data = PDict d)) /\
  (process_llm_output_to_a2ui_parts ext llm_output = [TextPart (strip llm_output)] \/
   exists records,
     process_llm_output_to_a2ui_parts ext llm_output
     = map (create_a2ui_part ext) records).
Proof.
  split; [intros start data; apply two_stage_container|].
  destruct llm_output as [|c s]; [right; exists []; reflexivity|].
  destruct (re_search (strip (c :: s))) as [start|] eqn:Hr.
  - rewrite (process_eq ext (c :: s) start ltac:(discriminate) Hr).
    destruct (two_stage (skipn start (strip (c :: s)))) as [data|] eqn:Ht;
      [|left; reflexivity].
    destruct (two_stage_container _ _ _ Hr Ht) as [(l & ->)|(d & ->)]; right.
    + exists l. reflexivity.
    + unfold parts_of, message_records.
      destruct (dict_get d (lit "messages")) as [[| | | | |ms|]|]; eauto.
  - left. apply process_no_json; [discriminate|exact Hr].
Qed.

(** A text whose first stage fails always comes back as the text fallback:
    a truncated or malformed document is never half recovered. *)
Theorem failed_parse_gives_text (ext : Externals) (llm_output : str) (start : nat) :
  llm_output <> [] ->
  re_search (strip llm_output) = Some start ->
  raw_decode (skipn start (strip llm_output)) = None ->
  process_llm_output_to_a2ui_parts ext llm_output = [TextPart (strip llm_output)].
Proof.
  intros Hne Hr Hd. rewrite (process_eq ext _ start Hne Hr).
  destruct (re_search_Some _ _ Hr) as (b & tl & Eb & Hb).
  rewrite Eb in Hd |- *. unfold two_stage, prefix_tolerant. rewrite Hd. simpl.
  rewrite (suffix_trim_fails _ _ Hb Hd). reflexivity.
Qed.

Lemma failed_parse_gives_text_witness :
  process_llm_output_to_a2ui_parts sample_externals
    (lit "Here: [{`a`: 1}, {`b`: ")
  = [TextPart (strip (lit "Here: [{`a`: 1}, {`b`: "))].
Proof.
  apply (failed_parse_gives_text sample_externals
           (lit "Here: [{`a`: 1}, {`b`: ") 6%nat).
  - discriminate.
  - reflexivity.
  - reflexivity.
Defined.

(** ** Whitespace around the output *)

Lemma forallb_rev {A : Type} (f : A -> bool) (l : list A) :
  forallb f (rev l) = forallb f l.
Proof.
  induction l as [|x l IH]; [reflexivity|].
  cbn [rev]. rewrite forallb_app, IH. simpl. rewrite andb_true_r. apply andb_comm.
Qed.

Lemma lstrip_spaces (w s : str) : forallb isspace w = true -> lstrip (w ++ s) = lstrip s.
Proof.
  induction w as [|c w IH]; simpl; [reflexivity|].
  intros H. apply andb_true_iff in H as [-> H]. exact (IH H).
Qed.

Lemma lstrip_keeps (s x : str) : lstrip s <> [] -> lstrip (s ++ x) = lstrip s ++ x.
Proof.
  induction s as [|c s IH]; simpl; [contradiction|].
  destruct (isspace c); [exact IH|reflexivity].
Qed.

Lemma rstrip_spaces (s w : str) : forallb isspace w = true -> rstrip (s ++ w) = rstrip s.
Proof.
  intros H. unfold rstrip. rewrite rev_app_distr, lstrip_spaces; [reflexivity|].
  rewrite forallb_rev. exact H.
Qed.

Lemma lstrip_not_all (s : str) : forallb isspace s = false -> lstrip s <> [].
Proof.
  induction s as [|c s IH]; simpl; [discriminate|].
  destruct (isspace c); [exact IH|discriminate].
Qed.

Lemma process_by_strip (ext : Externals) (a b : str) :
  a <> [] -> b <> [] -> strip a = strip b ->
  process_llm_output_to_a2ui_parts ext a = process_llm_output_to_a2ui_parts ext b.
Proof.
  intros Ha Hb E. destruct a as [|x a]; [contradiction|].
  destruct b as [|y b]; [contradiction|].
  unfold process_llm_output_to_a2ui_parts. cbv zeta. rewrite E. reflexivity.
Qed.

(** Whitespace before and after an output that is more than whitespace
    never changes the parts it gives. *)
Theorem surrounding_whitespace_ignored (ext : Externals) (before llm_output after : str) :
  forallb isspace before = true -> forallb isspace after = true ->
  forallb isspace llm_output = false ->
  process_llm_output_to_a2ui_parts ext (before ++ llm_output ++ after)
  = process_llm_output_to_a2ui_parts ext llm_output.
Proof.
  intros Hb Ha Hs. apply process_by_strip.
  - destruct llm_output; [discriminate|]. destruct before; discriminate.
  - destruct llm_output; discriminate.
  - unfold strip. rewrite (lstrip_spaces _ _ Hb).
    rewrite (lstrip_keeps _ _ (lstrip_not_all _ Hs)).
    apply rstrip_spaces, Ha.
Qed.

Lemma surrounding_whitespace_ignored_witness :
  process_llm_output_to_a2ui_parts sample_externals
    (lit "  " ++ lit "[{`a`: 1}]" ++ [10; 10])
  = process_llm_output_to_a2ui_parts sample_externals (lit "[{`a`: 1}]").
Proof.
  apply (surrounding_whitespace_ignored sample_externals
           (lit "  ") (lit "[{`a`: 1}]") [10; 10]); reflexivity.
Defined.

(** ** The handler on every input *)

(** The three ways a call of the handler ends. *)
Lemma execute_result (ext : Externals) (self : A2UIAgentExecutor)
    (context : RequestContext) (w : World) :
  execute ext self context w =
  match extraction ext context with
  | Raise e => (Raise e, w)
  | Return user_action_data =>
      match user_text context, user_action_data with
      | [], None => (Return tt, w)
      | _, _ => (Return tt, handled ext self context user_action_data w)
      end
  end.
Proof.
  unfold execute, mbind, lift, extraction. fold (user_text context).
  destruct (match message context with
            | Some m => find_user_action ext (parts m)
            | None => Return None
            end) as [uad|e]; [|reflexivity].
  destruct (user_text context) as [|c t] eqn:Et.
  - destruct uad as [d|]; [|reflexivity].
    unfold handled, creation, terminal_update, task_for, prompt,
      activate, update_status, enqueue_event, ret. rewrite Et.
    destruct (current_task context) as [t|]; cbn [event_queue activated_extensions];
      destruct (raised _); cbn [event_queue activated_extensions];
      rewrite <- ?app_assoc; reflexivity.
  - unfold handled, creation, terminal_update, task_for, prompt,
      activate, update_status, enqueue_event, ret. rewrite Et.
    destruct uad as [d|];
      destruct (current_task context) as [t0|]; cbn [event_queue activated_extensions];
      destruct (raised _); cbn [event_queue activated_extensions];
      rewrite <- ?app_assoc; reflexivity.
Qed.

Ltac raise_cases H :=
  repeat match type of H with
         | Raise _ = Raise _ => injection H as <-
         | Return _ = Raise _ => discriminate H
         | context [if existsb ?f ?l then _ else _] =>
             destruct (existsb f l) eqn:?; simpl in H
         | context [match ?x with _ => _ end] =>
             lazymatch x with
             | context [match _ with _ => _ end] => fail
             | _ => destruct x eqn:?; simpl in H
             end
         end.

Lemma context_entry_raises (ext : Externals) (d : pymap) (item : pyval) (e : exn) :
  context_entry ext d item = Raise e -> e = AttributeError \/ e = TypeError.
Proof.
  intros H. unfold context_entry, py_get, py_in, py_item, setitem, bind in H.
  raise_cases H; auto.
Qed.

Lemma context_entries_raises (ext : Externals) (items : list pyval) (d : pymap) (e : exn) :
  context_entries ext d items = Raise e -> e = AttributeError \/ e = TypeError.
Proof.
  revert d; induction items as [|item items IH]; intros d H; [discriminate|].
  cbn [context_entries] in H.
  destruct (context_entry ext d item) as [d'|e'] eqn:Ee; cbn [bind] in H.
  - exact (IH _ H).
  - injection H as <-. exact (context_entry_raises _ _ _ _ Ee).
Qed.

Lemma user_action_of_raises (ext : Externals) (payload : pyval) (e : exn) :
  user_action_of ext payload = Raise e -> e = AttributeError \/ e = TypeError.
Proof.
  intros H. unfold user_action_of in H.
  destruct (py_get payload (lit "name") PNone) as [n|e1] eqn:E1; cbn [bind] in H.
  2:{ injection H as <-. unfold py_get in E1. destruct payload; inversion E1; auto. }
  destruct (py_get payload (lit "context") (PList [])) as [c|e2] eqn:E2; cbn [bind] in H.
  2:{ injection H as <-. unfold py_get in E2. destruct payload; inversion E2; auto. }
  destruct (py_iter c) as [items|e3] eqn:E3; cbn [bind] in H.
  2:{ injection H as <-. unfold py_iter in E3. destruct c; inversion E3; auto. }
  destruct (context_entries ext [] items) as [d|e4] eqn:E4; cbn [bind] in H.
  - discriminate.
  - injection H as <-. exact (context_entries_raises _ _ _ _ E4).
Qed.

Lemma user_action_of_directive (ext : Externals) (payload : pyval) (d : str) :
  user_action_of ext payload = Return d -> exists name mapping, d = directive name mapping.
Proof.
  intros H. unfold user_action_of in H.
  destruct (py_get payload (lit "name") PNone) as [n|]; cbn [bind] in H; [|discriminate].
  destruct (py_get payload (lit "context") (PList [])) as [c|]; cbn [bind] in H;
    [|discriminate].
  destruct (py_iter c) as [items|]; cbn [bind] in H; [|discriminate].
  destruct (context_entries ext [] items) as [m|]; cbn [bind] in H; [|discriminate].
  injection H as <-. eauto.
Qed.

Lemma find_user_action_cases (ext : Externals) (ps : list Part) :
  (existsb has_user_action ps = false /\ find_user_action ext ps = Return None) \/
  (existsb has_user_action ps = true /\
   ((exists name mapping, find_user_action ext ps = Return (Some (directive name mapping))) \/
    find_user_action ext ps = Raise AttributeError \/
    find_user_action ext ps = Raise TypeError)).
Proof.
  induction ps as [|p ps IH]; [left; split; reflexivity|].
  destruct p as [t|f|data]; try exact IH.
  cbn [existsb has_user_action find_user_action].
  destruct (dict_get data (lit "userAction")) as [payload|]; [|exact IH].
  right. split; [reflexivity|].
  destruct (user_action_of ext payload) as [d|e] eqn:Eu; cbn [bind].
  - left. destruct (user_action_of_directive _ _ _ Eu) as (n & m & ->). eauto.
  - right. destruct (user_action_of_raises _ _ _ Eu) as [->| ->]; auto.
Qed.

(** The directive is absent exactly when no data part of the message
    holds the key userAction. *)
Theorem no_directive_iff_no_action (ext : Externals) (ps : list Part) :
  find_user_action ext ps = Return None <-> existsb has_user_action ps = false.
Proof.
  destruct (find_user_action_cases ext ps)
    as [[H1 H2]|[H1 [(n & m & H2)|[H2|H2]]]]; rewrite H1, H2; split; congruence.
Qed.





(** ** The payload of a user action *)

(** A userAction that is no JSON object makes the handler raise
    AttributeError, whatever text the message carries and whatever parts
    follow, and nothing is enqueued. *)
Theorem non_object_action_raises (ext : Externals) (self : A2UIAgentExecutor)
    (context : RequestContext) (w : World)
    (pre post : list Part) (data : pydict) (payload : pyval) :
  message context = Some {| parts := pre ++ DataPart data :: post |} ->
  existsb has_user_action pre = false ->
  dict_get data (lit "userAction") = Some payload ->
  (forall d, payload <> PDict d) ->
  execute ext self context w = (Raise AttributeError, w).
Proof.
  intros Hm Hpre Hd Hp. rewrite execute_result. unfold extraction. rewrite Hm.
  cbn [parts]. rewrite (find_user_action_first ext pre post data _ Hpre Hd).
  destruct payload; try reflexivity. contradiction (Hp items). reflexivity.
Qed.

Lemma non_object_action_raises_witness :
  execute sample_externals {| runner := idle_runner |}
    {| user_input := Some (lit "hi");
       message := Some {| parts := [TextPart (lit "hi")]
                                   ++ DataPart [(lit "userAction", PInt 7)] :: [] |};
       current_task := None; context_id := lit "ctx"; requested_extensions := [] |}
    fresh_world
  = (Raise AttributeError, fresh_world).
Proof.
  apply (non_object_action_raises sample_externals {| runner := idle_runner |} _ fresh_world
           [TextPart (lit "hi")] [] [(lit "userAction", PInt 7)] (PInt 7));
    try reflexivity.
  intros d. discriminate.
Defined.

(** A payload without the keys name and context still gives a directive:
    the name reads None and the mapping is empty. *)
Theorem action_defaults (ext : Externals) (pre post : list Part)
    (data payload : pydict) :
  existsb has_user_action pre = false ->
  dict_get data (lit "userAction") = Some (PDict payload) ->
  dict_get payload (lit "name") = None ->
  dict_get payload (lit "context") = None ->
  find_user_action ext (pre ++ DataPart data :: post)
  = Return (Some (directive (lit "None") (lit "{}"))).
Proof.
  intros Hpre Hd Hn Hc.
  rewrite (find_user_action_first ext pre post data _ Hpre Hd).
  unfold user_action_of, py_get. rewrite Hn, Hc. reflexivity.
Qed.

Lemma action_defaults_witness :
  find_user_action sample_externals
    ([] ++ DataPart [(lit "userAction", PDict [(lit "surfaceId", PStr (lit "main"))])] :: [])
  = Return (Some (directive (lit "None") (lit "{}"))).
Proof.
  apply (action_defaults sample_externals [] []
           [(lit "userAction", PDict [(lit "surfaceId", PStr (lit "main"))])]
           [(lit "surfaceId", PStr (lit "main"))]); reflexivity.
Defined.

Lemma context_entry_untagged (ext : Externals) (d : pymap) (fields : pydict) :
  untagged fields -> context_entry ext d (PDict fields) = Return d.
Proof.
  unfold untagged, context_entry, py_get. cbn [bind].
  destruct (dict_get fields (lit "value")) as [[| | | | | |v]|]; try contradiction.
  - intros (H1 & H2 & H3 & H4). unfold py_in. cbn [bind].
    rewrite H1, H2, H3, H4. reflexivity.
  - intros _. reflexivity.
Qed.

Lemma context_entries_app (ext : Externals) (a b : list pyval) (d : pymap) :
  context_entries ext d (a ++ b)
  = bind (context_entries ext d a) (fun d' => context_entries ext d' b).
Proof.
  revert d; induction a as [|x a IH]; intros d; [reflexivity|].
  cbn [app context_entries]. destruct (context_entry ext d x); cbn [bind]; [apply IH|reflexivity].
Qed.

(** A context entry without a value, or whose value has none of the tags
    literalString, literalNumber, literalBoolean and path, is passed over:
    the directive is the one of the context without that entry. *)
Theorem untagged_entry_ignored (ext : Externals) (name : pyval)
    (before after : list pyval) (fields : pydict) (rest : pydict) :
  untagged fields ->
  user_action_of ext
    (PDict ((lit "name", name)
            :: (lit "context", PList (before ++ PDict fields :: after)) :: rest))
  = user_action_of ext
      (PDict ((lit "name", name) :: (lit "context", PList (before ++ after)) :: rest)).
Proof.
  intros Hu. unfold user_action_of, py_get.
  change (dict_get ((lit "name", name) :: ?x) (lit "name")) with (Some name).
  cbn [bind].
  assert (Hc : forall items,
            dict_get ((lit "name", name) :: (lit "context", PList items) :: rest)
                     (lit "context") = Some (PList items)) by reflexivity.
  rewrite !Hc. cbn [bind py_iter].
  rewrite !context_entries_app.
  destruct (context_entries ext [] before) as [d|e]; cbn [bind]; [|reflexivity].
  cbn [context_entries]. rewrite (context_entry_untagged _ _ _ Hu). reflexivity.
Qed.

Lemma untagged_entry_ignored_witness :
  user_action_of sample_externals
    (PDict ((lit "name", PStr (lit "select"))
            :: (lit "context",
                PList ([] ++ PDict [(lit "key", PStr (lit "k"));
                                    (lit "value", PDict [(lit "literalArray", PList [])])]
                          :: [])) :: []))
  = user_action_of sample_externals
      (PDict ((lit "name", PStr (lit "select")) :: (lit "context", PList ([] ++ [])) :: [])).
Proof.
  apply (untagged_entry_ignored sample_externals (PStr (lit "select")) [] []
           [(lit "key", PStr (lit "k"));
            (lit "value", PDict [(lit "literalArray", PList [])])] []).
  vm_compute. auto.
Defined.

(** ** The mapping of the context *)

Lemma context_mapping_snoc (ext : Externals) (entries : list ContextEntry) (e : ContextEntry) :
  context_mapping ext (entries ++ [e])
  = context_set ext (context_mapping ext entries) (PStr (key e)) (unwrap (value e)).
Proof. unfold context_mapping. rewrite fold_left_app. reflexivity. Qed.

Lemma context_set_string_keys (ext : Externals) (d : pymap) (k : str) (v : pyval) :
  string_keys d -> string_keys (context_set ext d (PStr k) v).
Proof.
  unfold string_keys. induction d as [|[k0 v0] d IH]; intros H; simpl.
  - constructor; [exists k; reflexivity|constructor].
  - inversion H as [|? ? H0 Hd]; subst.
    destruct (key_eq ext k0 (PStr k)); constructor; auto.
Qed.

Lemma context_mapping_string_keys (ext : Externals) (entries : list ContextEntry) :
  string_keys (context_mapping ext entries).
Proof.
  induction entries as [|e entries IH] using rev_ind.
  - constructor.
  - rewrite context_mapping_snoc. apply context_set_string_keys, IH.
Qed.

Lemma mapping_get_set (ext : Externals) (d : pymap) (k q : str) (v : pyval) :
  string_keys d ->
  mapping_get ext (context_set ext d (PStr k) v) (PStr q)
  = if str_eqb k q then Some v else mapping_get ext d (PStr q).
Proof.
  unfold string_keys. induction d as [|[k0 v0] d IH]; intros H; simpl.
  - reflexivity.
  - inversion H as [|? ? (s0 & Hs0) Hd]; subst. simpl in Hs0. subst k0. simpl.
    destruct (str_eqb s0 k) eqn:E0; simpl.
    + apply str_eqb_eq in E0. subst s0.
      destruct (str_eqb k q); reflexivity.
    + destruct (str_eqb s0 q) eqn:E1.
      * destruct (str_eqb k q) eqn:E2; [|reflexivity].
        apply str_eqb_eq in E1. apply str_eqb_eq in E2. subst.
        rewrite str_eqb_refl in E0. discriminate.
      * apply IH, Hd.
Qed.

Lemma context_set_keys (ext : Externals) (d : pymap) (k : str) (v : pyval) :
  string_keys d -> NoDup (map fst d) -> NoDup (map fst (context_set ext d (PStr k) v)).
Proof.
  unfold string_keys. intros Hs Hn.
  assert (Hin : forall d, Forall (fun kv => exists s, fst kv = PStr s) d ->
            forall x, In x (map fst (context_set ext d (PStr k) v)) ->
                      In x (map fst d) \/ x = PStr k).
  { clear. induction d as [|[k0 v0] d IH]; intros Hs x Hx; simpl in *.
    - destruct Hx as [<-|[]]. auto.
    - inversion Hs as [|? ? _ Hd]; subst.
      destruct (key_eq ext k0 (PStr k)); simpl in Hx.
      + destruct Hx; auto.
      + destruct Hx as [<-|Hx]; [auto|]. destruct (IH Hd x Hx); auto. }
  induction d as [|[k0 v0] d IH]; simpl.
  - constructor; [intros []|constructor].
  - inversion Hs as [|? ? (s0 & Hs0) Hd]; subst. simpl in Hs0. subst k0.
    inversion Hn as [|? ? Hnot Hn']; subst. simpl.
    destruct (str_eqb s0 k) eqn:E0; simpl.
    + constructor; assumption.
    + constructor; [|exact (IH Hd Hn')].
      intros Hx. destruct (Hin d Hd _ Hx) as [Hx'|Hx']; [exact (Hnot Hx')|].
      injection Hx' as ->. rewrite str_eqb_refl in E0. discriminate.
Qed.

(** The mapping built from the context holds each key once, bound to the
    value of the last entry that has this key. *)
Theorem context_mapping_last_wins (ext : Externals) (entries : list ContextEntry) :
  NoDup (map fst (context_mapping ext entries)) /\
  forall k,
    mapping_get ext (context_mapping ext entries) (PStr k)
    = option_map (fun e => unwrap (value e)) (last_entry entries k).
Proof.
  induction entries as [|e entries [IHn IHg]] using rev_ind.
  - split; [constructor|reflexivity].
  - rewrite context_mapping_snoc. split.
    + apply context_set_keys; [apply context_mapping_string_keys|exact IHn].
    + intros k. rewrite mapping_get_set by apply context_mapping_string_keys.
      unfold last_entry. rewrite rev_app_distr. cbn [rev app find].
      destruct (str_eqb (key e) k); [reflexivity|]. apply IHg.
Qed.

(** ** The prompt *)

Lemma find_user_action_directive (ext : Externals) (ps : list Part) (d : str) :
  find_user_action ext ps = Return (Some d) -> exists name mapping, d = directive name mapping.
Proof.
  destruct (find_user_action_cases ext ps)
    as [[_ H2]|[_ [(n & m & H2)|[H2|H2]]]]; rewrite H2; intros H; try discriminate.
  injection H as <-. eauto.
Qed.

Lemma directive_ends (name mapping : str) :
  exists middle, directive name mapping = 85 :: middle ++ [46].
Proof.
  unfold directive.
  exists (lit "ser initiated action: '" ++ name ++ lit "'. Action context data: "
          ++ mapping ++ lit ". Please use the appropriate tool to handle this").
  change (lit "User initiated action: '") with (85 :: lit "ser initiated action: '").
  change (lit ". Please use the appropriate tool to handle this.")
    with (lit ". Please use the appropriate tool to handle this" ++ [46]).
  cbn [app]. now rewrite <- !app_assoc.
Qed.

(** With a user action the prompt is the text of the user without the
    whitespace that leads it, a line feed and the directive, which is kept
    whole; with no text at all it is the directive alone. *)
Theorem prompt_with_action (ext : Externals) (context : RequestContext)
    (ps : list Part) (d : str) :
  find_user_action ext ps = Return (Some d) ->
  prompt context (Some d)
  = {| role := lit "user";
       content_parts :=
         Some [{| text := Some (lstrip (user_text context ++ [10]) ++ d) |}] |}
  /\ (user_text context = [] ->
      prompt context (Some d)
      = {| role := lit "user"; content_parts := Some [{| text := Some d |}] |}).
Proof.
  intros Hf. destruct (find_user_action_directive _ _ _ Hf) as (n & m & ->).
  destruct (directive_ends n m) as (middle & E).
  assert (Hs : forall t, strip (t ++ [10] ++ directive n m)
                         = lstrip (t ++ [10]) ++ directive n m).
  { intros t. rewrite E, app_assoc.
    exact (strip_around (t ++ [10]) 85 middle 46 [] eq_refl eq_refl). }
  unfold prompt. split.
  - rewrite Hs. reflexivity.
  - intros ->. rewrite Hs. reflexivity.
Qed.

Lemma prompt_with_action_witness :
  prompt {| user_input := Some (lit "  pick one"); message := None; current_task := None;
            context_id := lit "ctx"; requested_extensions := [] |}
         (Some (directive (lit "None") (lit "{}")))
  = {| role := lit "user";
       content_parts :=
         Some [{| text := Some (lstrip (lit "  pick one" ++ [10])
                                ++ directive (lit "None") (lit "{}")) |}] |}.
Proof.
  apply (proj1 (prompt_with_action sample_externals
                  {| user_input := Some (lit "  pick one"); message := None;
                     current_task := None; context_id := lit "ctx";
                     requested_extensions := [] |}
                  [DataPart [(lit "userAction", PDict [])]]
                  (directive (lit "None") (lit "{}")) eq_refl)).
Defined.

(** ** Encoding and decoding strings *)

Lemma divmod (n b : N) : b <> 0 -> n = b * (n / b) + n mod b /\ n mod b < b.
Proof.
  intros Hb. split; [apply N.div_mod; exact Hb|apply N.mod_upper_bound; exact Hb].
Qed.

Lemma hex_digit_value (d : N) : d < 16 -> hexval (hex_digit d) = Some d.
Proof.
  intros H.
  assert (C : d = 0 \/ d = 1 \/ d = 2 \/ d = 3 \/ d = 4 \/ d = 5 \/ d = 6 \/ d = 7 \/
              d = 8 \/ d = 9 \/ d = 10 \/ d = 11 \/ d = 12 \/ d = 13 \/ d = 14 \/ d = 15)
    by lia.
  repeat (destruct C as [->|C]; [reflexivity|]). subst d. reflexivity.
Qed.

Lemma hex_digits_value (n : N) :
  n < 65536 ->
  ((n / 4096 mod 16 * 16 + n / 256 mod 16) * 16 + n / 16 mod 16) * 16 + n mod 16 = n.
Proof.
  intros Hn.
  assert (E1 : n / 256 = n / 16 / 16) by (rewrite N.Div0.div_div; reflexivity).
  assert (E2 : n / 4096 = n / 16 / 16 / 16) by (rewrite !N.Div0.div_div; reflexivity).
  rewrite E1, E2. clear E1 E2.
  destruct (divmod n 16 ltac:(discriminate)) as [H0 L0].
  destruct (divmod (n / 16) 16 ltac:(discriminate)) as [H1 L1].
  destruct (divmod (n / 16 / 16) 16 ltac:(discriminate)) as [H2 L2].
  destruct (divmod (n / 16 / 16 / 16) 16 ltac:(discriminate)) as [H3 L3].
  generalize dependent (n / 16 / 16 / 16 / 16). intros e H3.
  generalize dependent (n / 16 / 16 / 16 mod 16). intros r3 L3 H3.
  generalize dependent (n / 16 / 16 / 16). intros c H2 H3.
  generalize dependent (n / 16 / 16 mod 16). intros r2 L2 H2.
  generalize dependent (n / 16 / 16). intros b H1 H2.
  generalize dependent (n / 16 mod 16). intros r1 L1 H1.
  generalize dependent (n / 16). intros a H0 H1.
  generalize dependent (n mod 16). intros r0 L0 H0.
  lia.
Qed.

(** A \u escape decodes to the number it was made of. *)
Lemma u_escape_decodes (n : N) :
  n < 65536 ->
  exists x1 x2 x3 x4,
    u_escape n = [92; 117; x1; x2; x3; x4] /\ decode_uXXXX x1 x2 x3 x4 = Some n.
Proof.
  intros Hn.
  exists (hex_digit (n / 4096 mod 16)), (hex_digit (n / 256 mod 16)),
         (hex_digit (n / 16 mod 16)), (hex_digit (n mod 16)).
  split; [reflexivity|]. unfold decode_uXXXX.
  rewrite !hex_digit_value by (apply N.mod_upper_bound; discriminate).
  rewrite (hex_digits_value n Hn). reflexivity.
Qed.

Lemma lor_shiftl_add (q r k : N) : r < 2 ^ k -> N.lor (N.shiftl q k) r = q * 2 ^ k + r.
Proof.
  intros Hr. rewrite N.shiftl_mul_pow2.
  assert (Hz : N.land (q * 2 ^ k) r = 0).
  { apply N.bits_inj_0. intros i. rewrite N.land_spec.
    destruct (N.lt_ge_cases i k) as [Hi|Hi].
    - rewrite N.mul_pow2_bits_low by exact Hi. reflexivity.
    - destruct (N.eq_dec r 0) as [->|Hn]; [rewrite N.bits_0; apply andb_false_r|].
      rewrite (N.bits_above_log2 r i), andb_false_r; [reflexivity|].
      apply N.lt_le_trans with k; [|exact Hi].
      apply N.log2_lt_pow2; lia. }
  rewrite (N.add_nocarry_lxor _ _ Hz), (N.lxor_lor _ _ Hz). reflexivity.
Qed.

(** The two halves of a code point above the basic plane. *)
Lemma surrogate_pair (c : N) :
  65536 <= c -> c < 1114112 ->
  let n := c - 65536 in
  let hi := N.lor 55296 (N.land (N.shiftr n 10) 1023) in
  let lo := N.lor 56320 (N.land n 1023) in
  hi < 65536 /\ lo < 65536 /\ high_surrogate hi = true /\ low_surrogate lo = true /\
  65536 + N.lor (N.shiftl (hi - 55296) 10) (lo - 56320) = c.
Proof.
  intros H1 H2 n hi lo.
  assert (Hn : n < 1048576) by (unfold n; lia).
  destruct (divmod n 1024 ltac:(discriminate)) as [Hd Hr].
  assert (Hq : n / 1024 < 1024).
  { apply N.Div0.div_lt_upper_bound. lia. }
  assert (Ehi : hi = 55296 + n / 1024).
  { unfold hi. change 1023 with (N.ones 10). rewrite N.land_ones.
    rewrite N.shiftr_div_pow2. change (2 ^ 10) with 1024.
    rewrite (N.mod_small _ _ Hq).
    change 55296 with (N.shiftl 54 10) at 1.
    rewrite lor_shiftl_add by exact Hq. reflexivity. }
  assert (Elo : lo = 56320 + n mod 1024).
  { unfold lo. change 1023 with (N.ones 10). rewrite N.land_ones.
    change (2 ^ 10) with 1024.
    change 56320 with (N.shiftl 55 10) at 1.
    rewrite lor_shiftl_add by exact Hr. reflexivity. }
  rewrite Ehi, Elo. clear Ehi Elo hi lo.
  generalize dependent (n / 1024). intros q Hd Hq.
  generalize dependent (n mod 1024). intros r Hr Hd.
  replace (55296 + q - 55296) with q by lia.
  replace (56320 + r - 56320) with r by lia.
  rewrite lor_shiftl_add by exact Hr. change (2 ^ 10) with 1024.
  unfold high_surrogate, low_surrogate.
  repeat split; try lia; apply andb_true_iff; split; apply N.leb_le; lia.
Qed.

(** What the encoder writes for one character reads back as it. *)
Lemma scanstring_escape (c : char) (rest : str) :
  plain_char c = true ->
  scanstring (escape_ascii c ++ rest) = cons_chunk c (scanstring rest).
Proof.
  intros Hp. unfold plain_char in Hp.
  apply andb_true_iff in Hp as [Hlt Hhi].
  apply N.ltb_lt in Hlt. apply negb_true_iff in Hhi.
  unfold escape_ascii.
  destruct (is_char "\" c) eqn:Eb.
  { unfold is_char in Eb. apply N.eqb_eq in Eb. subst c. reflexivity. }
  destruct (c =? 34) eqn:Eq.
  { apply N.eqb_eq in Eq. subst c. reflexivity. }
  destruct ((32 <=? c) && (c <=? 126)) eqn:Epr.
  { apply andb_true_iff in Epr as [E32 _]. apply N.leb_le in E32.
    cbn [app scanstring]. rewrite Eq, Eb.
    replace (c <? 32) with false by (symmetry; apply N.ltb_ge; exact E32).
    reflexivity. }
  destruct (c =? 8) eqn:E8; [apply N.eqb_eq in E8; subst c; reflexivity|].
  destruct (c =? 12) eqn:E12; [apply N.eqb_eq in E12; subst c; reflexivity|].
  destruct (c =? 10) eqn:E10; [apply N.eqb_eq in E10; subst c; reflexivity|].
  destruct (c =? 13) eqn:E13; [apply N.eqb_eq in E13; subst c; reflexivity|].
  destruct (c =? 9) eqn:E9; [apply N.eqb_eq in E9; subst c; reflexivity|].
  destruct (c <? 65536) eqn:Ebmp.
  - apply N.ltb_lt in Ebmp.
    destruct (u_escape_decodes c Ebmp) as (x1 & x2 & x3 & x4 & -> & Hd).
    cbn [app].
    rewrite (scanstring_escape_u 92 117 x1 x2 x3 x4 rest c eq_refl eq_refl eq_refl Hd).
    rewrite Hhi. reflexivity.
  - apply N.ltb_ge in Ebmp.
    destruct (surrogate_pair c Ebmp Hlt) as (Hh & Hl & Hhs & Hls & Hj).
    cbv zeta in *.
    destruct (u_escape_decodes _ Hh) as (x1 & x2 & x3 & x4 & -> & Hd1).
    destruct (u_escape_decodes _ Hl) as (y1 & y2 & y3 & y4 & -> & Hd2).
    cbn [app].
    rewrite (scanstring_escape_u 92 117 x1 x2 x3 x4 _ _ eq_refl eq_refl eq_refl Hd1).
    rewrite Hhs. cbn [escape_u_next]. change (is_char "\" 92 && is_char "u" 117) with true.
    cbn [andb]. rewrite Hd2, Hls, Hj. reflexivity.
Qed.

Lemma scanstring_encoded (s rest : str) :
  plain_str s = true ->
  scanstring (flat_map escape_ascii s ++ 34 :: rest) = Some (s, rest).
Proof.
  induction s as [|c s IH]; intros Hp; [reflexivity|].
  simpl in Hp. apply andb_true_iff in Hp as [Hc Hs].
  cbn [flat_map]. rewrite <- app_assoc, (scanstring_escape _ _ Hc), (IH Hs).
  reflexivity.
Qed.

(** ** Encoding and decoding integers *)

Lemma digits_value_snoc (ds : str) (c : char) :
  digits_value (ds ++ [c]) = digits_value ds * 10 + (c - 48).
Proof. unfold digits_value. rewrite fold_left_app. reflexivity. Qed.

Lemma digit_of_mod (r : N) : r < 10 -> is_digit (48 + r) = true /\ 48 + r - 48 = r.
Proof.
  intros H. split; [|lia]. unfold is_digit.
  apply andb_true_iff. split; apply N.leb_le; lia.
Qed.

Lemma digits_of_pos_spec (fuel : nat) (n : N) (acc : str) :
  (0 < fuel)%nat -> n < 2 ^ N.of_nat fuel ->
  exists ds, digits_of_pos fuel n acc = ds ++ acc /\
             canonical_digits ds /\ digits_value ds = n.
Proof.
  revert n acc; induction fuel as [|f IH]; intros n acc Hf Hn; [lia|].
  cbn [digits_of_pos]. cbv zeta.
  destruct (divmod n 10 ltac:(discriminate)) as [Hd Hr].
  destruct (digit_of_mod _ Hr) as [Hdig Hsub].
  destruct (n / 10 =? 0) eqn:Eq.
  - apply N.eqb_eq in Eq. rewrite Eq in Hd.
    exists [48 + n mod 10]. split; [reflexivity|]. split.
    + split; [cbn [forallb]; rewrite Hdig; reflexivity|]. intros _. reflexivity.
    + unfold digits_value. cbn [fold_left]. lia.
  - apply N.eqb_neq in Eq.
    rewrite Nat2N.inj_succ, N.pow_succ_r' in Hn.
    assert (Hq : n / 10 < 2 ^ N.of_nat f /\ (0 < f)%nat).
    { split.
      - clear IH Hdig Hsub. generalize dependent (n / 10). intros q Hd Eq.
        generalize dependent (n mod 10). intros r Hd Hr. lia.
      - destruct f; [|lia]. exfalso. simpl in Hn.
        clear IH Hdig Hsub. generalize dependent (n / 10). intros q Hd Eq.
        generalize dependent (n mod 10). intros r Hd Hr. lia. }
    destruct Hq as [Hq Hf'].
    destruct (IH (n / 10) ((48 + n mod 10) :: acc) Hf' Hq)
      as (ds & E & [Hall Hhead] & Hv).
    exists (ds ++ [48 + n mod 10]). split; [rewrite E; now rewrite <- app_assoc|]. split.
    + split.
      * rewrite forallb_app, Hall. cbn [forallb]. rewrite Hdig. reflexivity.
      * destruct ds as [|c rest]; [contradiction|]. cbn [app].
        intros Hc. specialize (Hhead Hc). subst rest c.
        unfold digits_value in Hv. simpl in Hv. congruence.
    + rewrite digits_value_snoc, Hv, Hsub.
      clear - Hd. generalize dependent (n / 10). intros q Hd.
      generalize dependent (n mod 10). intros r Hd. lia.
Qed.

Lemma int_repr_digits (z : Z) :
  exists ds, canonical_digits ds /\ digits_value ds = Z.abs_N z /\
             int_repr z = if (z <? 0)%Z then ord "-" :: ds else ds.
Proof.
  unfold int_repr. cbv zeta.
  destruct (digits_of_pos_spec (S (N.to_nat (N.log2 (Z.abs_N z)))) (Z.abs_N z) [])
    as (ds & E & Hc & Hv).
  - lia.
  - rewrite Nat2N.inj_succ, N2Nat.id.
    destruct (N.eq_dec (Z.abs_N z) 0) as [E0|Hne].
    + rewrite E0. reflexivity.
    + apply N.log2_spec. lia.
  - rewrite app_nil_r in E. exists ds. rewrite E. auto.
Qed.

Lemma span_digits_all (ds rest : str) :
  forallb is_digit ds = true -> no_digit rest -> span_digits (ds ++ rest) = (ds, rest).
Proof.
  intros Hd Hr. induction ds as [|c ds IH]; cbn [app].
  - destruct rest as [|c r]; simpl in *; [reflexivity|]. rewrite Hr. reflexivity.
  - simpl in Hd. apply andb_true_iff in Hd as [Hc Hd].
    simpl. rewrite Hc, (IH Hd). reflexivity.
Qed.

Lemma digit_no_minus (c : char) : is_digit c = true -> is_char "-" c = false.
Proof.
  unfold is_digit, is_char, ord. simpl N_of_ascii. intros H.
  apply andb_true_iff in H as [H1 H2]. apply N.leb_le in H1.
  apply N.eqb_neq. lia.
Qed.

Lemma match_integer_digits (ds rest : str) :
  canonical_digits ds -> no_digit rest ->
  match_integer (ds ++ rest) = Some (ds, rest) /\
  match_integer (ord "-" :: ds ++ rest) = Some (ord "-" :: ds, rest).
Proof.
  intros [Hall Hhead] Hr. destruct ds as [|c ds]; [contradiction|].
  simpl in Hall. apply andb_true_iff in Hall as [Hc Hds].
  unfold match_integer. change (is_char "-" (ord "-")) with true.
  cbn [app]. rewrite (digit_no_minus _ Hc). cbv iota beta. cbn [app].
  destruct (is_char "0" c) eqn:E0.
  - apply N.eqb_eq in E0. rewrite (Hhead E0). split; reflexivity.
  - rewrite Hc, (span_digits_all _ _ Hds Hr). split; reflexivity.
Qed.

Lemma digits_value_Z (ds : str) (a : N) :
  fold_left (fun acc c => (acc * 10 + Z.of_N (c - 48))%Z) ds (Z.of_N a) =
  Z.of_N (fold_left (fun a c => a * 10 + (c - 48)) ds a).
Proof.
  revert a; induction ds as [|c ds IH]; intros a; [reflexivity|].
  cbn [fold_left]. rewrite <- IH. f_equal. lia.
Qed.

Lemma parse_int_repr (z : Z) : parse_int (int_repr z) = z.
Proof.
  destruct (int_repr_digits z) as (ds & [Hall Hhead] & Hv & ->).
  destruct (z <? 0)%Z eqn:Ez.
  - unfold parse_int. change (is_char "-" (ord "-")) with true. cbv iota.
    pose proof (digits_value_Z ds 0) as E. change (Z.of_N 0) with 0%Z in E.
    rewrite E. fold (digits_value ds). rewrite Hv.
    apply Z.ltb_lt in Ez. lia.
  - destruct ds as [|c ds]; [contradiction|].
    simpl in Hall. apply andb_true_iff in Hall as [Hc _].
    unfold parse_int. rewrite (digit_no_minus _ Hc).
    pose proof (digits_value_Z (c :: ds) 0) as E. change (Z.of_N 0) with 0%Z in E.
    rewrite E. fold (digits_value (c :: ds)). rewrite Hv.
    apply Z.ltb_ge in Ez. lia.
Qed.

Lemma match_number_int_repr (z : Z) (rest : str) :
  ends_number rest = true ->
  match_number (int_repr z ++ rest) = Some (int_repr z, None, None, rest).
Proof.
  intros Hr.
  destruct (int_repr_digits z) as (ds & Hc & _ & ->).
  destruct (match_integer_digits ds rest Hc (ends_number_no_digit _ Hr)) as [E1 E2].
  unfold match_number.
  destruct (z <? 0)%Z; cbn [app]; [rewrite E2|rewrite E1];
    rewrite (match_frac_None _ Hr), (match_exp_None _ Hr); reflexivity.
Qed.

Lemma scan_value_int (po pa : str -> scan (pyval * str)) (z : Z) (rest : str) :
  ends_number rest = true ->
  scan_value po pa (int_repr z ++ rest) = Done (PInt z, rest).
Proof.
  intros Hr.
  rewrite (scan_value_number po pa _ _ _ _ _ (match_number_int_repr z rest Hr)).
  unfold number_value. rewrite parse_int_repr. reflexivity.
Qed.

(** ** Encoding and decoding values *)

Lemma pyval_nested_ind (P : pyval -> Prop) :
  P PNone -> (forall b, P (PBool b)) -> (forall n, P (PInt n)) ->
  (forall x, P (PFloat x)) -> (forall s, P (PStr s)) ->
  (forall l, Forall P l -> P (PList l)) ->
  (forall d, Forall (fun kv => P (snd kv)) d -> P (PDict d)) ->
  forall v, P v.
Proof.
  intros HN HB HI HF HS HL HD. fix IH 1. intros [ |b|n|x|s|l|d].
  - exact HN.
  - apply HB.
  - apply HI.
  - apply HF.
  - apply HS.
  - apply HL. induction l as [|a l IHl]; constructor; [apply IH|exact IHl].
  - apply HD. induction d as [|[k a] d IHd]; constructor; [apply IH|exact IHd].
Qed.

Lemma dumps_list (ext : Externals) (x : pyval) (t : list pyval) :
  dumps ext (PList (x :: t)) = 91 :: join (lit ", ") (map (dumps ext) (x :: t)) ++ [93].
Proof. reflexivity. Qed.

Lemma dumps_pairs (ext : Externals) (kv : str * pyval) (t : list (str * pyval)) :
  dumps ext (PDict (kv :: t)) = 123 :: join (lit ", ") (map (dumps_item ext) (kv :: t)) ++ [125].
Proof. reflexivity. Qed.

Lemma join_cons (sep x y : str) (t : list str) :
  join sep (x :: y :: t) = x ++ sep ++ join sep (y :: t).
Proof. reflexivity. Qed.

Lemma digit_value_head (c : char) (t : str) : is_digit c = true -> value_head (c :: t).
Proof.
  unfold is_digit, value_head, is_ws, is_char, ord. simpl N_of_ascii. intros H.
  apply andb_true_iff in H as [H1 H2]. apply N.leb_le in H1. apply N.leb_le in H2.
  repeat split; repeat (apply orb_false_iff; split); apply N.eqb_neq; lia.
Qed.

Lemma dumps_head (ext : Externals) (v : pyval) (rest : str) :
  plain v = true -> value_head (dumps ext v ++ rest).
Proof.
  destruct v as [ |[|]|n|x|s|[|a l]|[|[k a] d]]; intros Hp; try discriminate;
    try (repeat split; reflexivity).
  destruct (int_repr_digits n) as (ds & [Hall Hhead] & _ & E).
  change (dumps ext (PInt n)) with (int_repr n). rewrite E.
  destruct (n <? 0)%Z; [repeat split; reflexivity|].
  destruct ds as [|c ds]; [contradiction|].
  simpl in Hall. apply andb_true_iff in Hall as [Hc _].
  apply digit_value_head. exact Hc.
Qed.

Lemma skip_space (s : str) : value_head s -> skip_ws (32 :: s) = s /\ skip_ws s = s.
Proof.
  destruct s as [|c s]; [contradiction|]. intros (Hc & _).
  change (skip_ws (32 :: c :: s)) with (skip_ws (c :: s)).
  rewrite (skip_ws_fix _ _ Hc). split; reflexivity.
Qed.

Lemma values_loop_last (f : nat) (s : str) (x : pyval) (rest : str) (acc : list pyval) :
  scan_once f s = Done (x, 93 :: rest) ->
  values_loop (S f) s acc = Done (PList (acc ++ [x]), rest).
Proof. intros H. rewrite values_loop_S, H. reflexivity. Qed.

Lemma values_loop_more (f : nat) (s : str) (x : pyval) (r : str) (acc : list pyval) :
  value_head r -> scan_once f s = Done (x, 44 :: 32 :: r) ->
  values_loop (S f) s acc = values_loop f r (acc ++ [x]).
Proof.
  intros Hr H. rewrite values_loop_S, H.
  change (skip_ws (44 :: 32 :: r)) with (44 :: 32 :: r). cbv iota.
  change (is_char "]" 44) with false. change (is_char "," 44) with true. cbv iota.
  rewrite (proj1 (skip_space _ Hr)). reflexivity.
Qed.

Lemma join_head (ext : Externals) (y : pyval) (t : list pyval) (rest : str) :
  plain y = true -> value_head (join (lit ", ") (map (dumps ext) (y :: t)) ++ rest).
Proof.
  intros Hy. destruct t as [|z t].
  - apply dumps_head. exact Hy.
  - cbn [map]. rewrite join_cons, <- app_assoc. apply dumps_head. exact Hy.
Qed.

Lemma values_loop_encoded (ext : Externals) (t : list pyval) (x : pyval) :
  Forall (Decodes ext) (x :: t) -> forallb plain (x :: t) = true ->
  exists f, forall f' rest acc, (f <= f')%nat ->
    values_loop f' (join (lit ", ") (map (dumps ext) (x :: t)) ++ 93 :: rest) acc =
    Done (PList (acc ++ x :: t), rest).
Proof.
  revert x; induction t as [|y t IH]; intros x HF Hp.
  - inversion HF as [|? ? [fx Hx] _]; subst. exists (S fx).
    intros [|f'] rest acc Hle; [lia|].
    cbn [map join]. apply values_loop_last. apply Hx; [lia|]. intros _. reflexivity.
  - inversion HF as [|? ? [fx Hx] HF']; subst.
    cbn [forallb] in Hp. apply andb_true_iff in Hp as [Hpx Hp].
    destruct (IH y HF' Hp) as [f1 H1].
    exists (S (Nat.max fx f1)). intros [|f'] rest acc Hle; [lia|].
    cbn [map]. rewrite join_cons. change (lit ", ") with [44; 32].
    renest.
    assert (Hy : plain y = true).
    { cbn [forallb] in Hp. apply andb_true_iff in Hp as [Hy _]. exact Hy. }
    rewrite (values_loop_more f' _ x _ acc (join_head ext y t (93 :: rest) Hy)).
    + change (dumps ext y :: map (dumps ext) t) with (map (dumps ext) (y :: t)).
      rewrite H1 by lia. rewrite <- app_assoc. reflexivity.
    + apply Hx; [lia|]. intros _. reflexivity.
Qed.

Lemma pairs_loop_last (f : nat) (s k R : str) (x : pyval) (rest : str)
    (acc : list (str * pyval)) :
  scanstring s = Some (k, 58 :: 32 :: R) -> value_head R ->
  scan_once f R = Done (x, 125 :: rest) ->
  pairs_loop (S f) s acc = Done (PDict (dict_of_pairs (acc ++ [(k, x)])), rest).
Proof.
  intros Hs HR H. rewrite pairs_loop_S, Hs.
  change (skip_ws (58 :: 32 :: R)) with (58 :: 32 :: R). cbv iota.
  change (is_char ":" 58) with true. cbv iota.
  rewrite (proj1 (skip_space _ HR)), H. reflexivity.
Qed.

Lemma pairs_loop_more (f : nat) (s k R : str) (x : pyval) (q : str)
    (acc : list (str * pyval)) :
  scanstring s = Some (k, 58 :: 32 :: R) -> value_head R ->
  scan_once f R = Done (x, 44 :: 32 :: 34 :: q) ->
  pairs_loop (S f) s acc = pairs_loop f q (acc ++ [(k, x)]).
Proof.
  intros Hs HR H. rewrite pairs_loop_S, Hs.
  change (skip_ws (58 :: 32 :: R)) with (58 :: 32 :: R). cbv iota.
  change (is_char ":" 58) with true. cbv iota.
  rewrite (proj1 (skip_space _ HR)), H. reflexivity.
Qed.

Lemma pairs_loop_encoded (ext : Externals) (t : list (str * pyval)) (k : str) (x : pyval) :
  Forall (fun kv => Decodes ext (snd kv)) ((k, x) :: t) ->
  forallb (fun kv => match kv with (k, x) => plain_str k && plain x end) ((k, x) :: t)
    = true ->
  exists f q, join (lit ", ") (map (dumps_item ext) ((k, x) :: t)) = 34 :: q /\
    forall f' rest acc, (f <= f')%nat ->
      pairs_loop f' (q ++ 125 :: rest) acc =
      Done (PDict (dict_of_pairs (acc ++ (k, x) :: t)), rest).
Proof.
  revert k x; induction t as [|[k' y] t IH]; intros k x HF Hp;
    inversion HF as [|? ? [fx Hx] HF']; subst;
    cbn [forallb] in Hp; apply andb_true_iff in Hp as [Hkx Hp];
    apply andb_true_iff in Hkx as [Hk Hpx]; cbn [snd] in Hx.
  - exists (S fx), (flat_map escape_ascii k ++ 34 :: 58 :: 32 :: dumps ext x).
    split.
    + cbn [map join dumps_item]. unfold encode_basestring_ascii.
      change (lit ": ") with [58; 32]. now renest.
    + intros [|f'] rest acc Hle; [lia|]. renest.
      apply (pairs_loop_last f' _ k (dumps ext x ++ 125 :: rest)).
      * apply scanstring_encoded. exact Hk.
      * apply dumps_head. exact Hpx.
      * apply Hx; [lia|]. intros _. reflexivity.
  - destruct (IH k' y HF' Hp) as (f1 & q1 & Eq & H1).
    exists (S (Nat.max fx f1)),
      (flat_map escape_ascii k ++ 34 :: 58 :: 32 :: dumps ext x ++ 44 :: 32 :: 34 :: q1).
    split.
    + cbn [map]. rewrite join_cons.
      change (dumps_item ext (k', y) :: map (dumps_item ext) t)
        with (map (dumps_item ext) ((k', y) :: t)).
      rewrite Eq. cbn [dumps_item]. unfold encode_basestring_ascii.
      change (lit ": ") with [58; 32]. change (lit ", ") with [44; 32]. now renest.
    + intros [|f'] rest acc Hle; [lia|]. renest.
      rewrite (pairs_loop_more f' _ k (dumps ext x ++ 44 :: 32 :: 34 :: q1 ++ 125 :: rest)
                 x (q1 ++ 125 :: rest)).
      * rewrite H1 by lia. rewrite <- app_assoc. reflexivity.
      * apply scanstring_encoded. exact Hk.
      * apply dumps_head. exact Hpx.
      * apply Hx; [lia|]. intros _. reflexivity.
Qed.

Lemma dict_set_fresh (acc : pydict) (k : str) (v : pyval) (later : list str) :
  distinct_keys (map fst acc ++ k :: later) = true ->
  dict_set acc k v = acc ++ [(k, v)].
Proof.
  induction acc as [|[k' v'] acc IH]; cbn [map fst app distinct_keys dict_set];
    [reflexivity|].
  intros H. apply andb_true_iff in H as [Hk H]. apply negb_true_iff in Hk.
  rewrite existsb_app in Hk. apply orb_false_iff in Hk as [_ Hk].
  cbn [existsb] in Hk. apply orb_false_iff in Hk as [Hk _].
  rewrite Hk, (IH H). reflexivity.
Qed.

Lemma dict_of_pairs_distinct (d acc : pydict) :
  distinct_keys (map fst acc ++ map fst d) = true ->
  fold_left (fun d kv => dict_set d (fst kv) (snd kv)) d acc = acc ++ d.
Proof.
  revert acc; induction d as [|[k v] d IH]; intros acc H; cbn [fold_left fst snd].
  - now rewrite app_nil_r.
  - cbn [map fst] in H. rewrite (dict_set_fresh _ _ _ _ H), IH.
    + now rewrite <- app_assoc.
    + rewrite map_app, <- app_assoc. exact H.
Qed.

Lemma plain_decodes (ext : Externals) (v : pyval) : plain v = true -> Decodes ext v.
Proof.
  induction v as [ |b|n|x|s|l IH|d IH] using pyval_nested_ind; intros Hp.
  - exists 1%nat. intros [|f'] rest Hle _; [lia|]. reflexivity.
  - exists 1%nat. intros [|f'] rest Hle _; [lia|]. destruct b; reflexivity.
  - exists 1%nat. intros [|f'] rest Hle Hr; [lia|].
    rewrite scan_once_S. apply scan_value_int. apply Hr. reflexivity.
  - discriminate.
  - exists 1%nat. intros [|f'] rest Hle _; [lia|].
    rewrite scan_once_S. change (dumps ext (PStr s)) with (encode_basestring_ascii s).
    unfold encode_basestring_ascii. renest. unfold scan_value.
    change (34 =? 34) with true. cbv iota.
    rewrite (scanstring_encoded _ _ Hp). reflexivity.
  - destruct l as [|x t].
    { exists 1%nat. intros [|f'] rest Hle _; [lia|]. reflexivity. }
    cbn [plain] in Hp.
    assert (HF : Forall (Decodes ext) (x :: t)).
    { apply Forall_forall. intros y Hy. apply (proj1 (Forall_forall _ _) IH y Hy).
      exact (proj1 (forallb_forall _ _) Hp y Hy). }
    destruct (values_loop_encoded ext t x HF Hp) as [f Hf].
    exists (S f). intros [|f'] rest Hle _; [lia|].
    rewrite scan_once_S, dumps_list. renest. cbn [app]. unfold scan_value.
    change (91 =? 34) with false. change (is_char "{" 91) with false.
    change (is_char "[" 91) with true. cbv iota.
    unfold JSONArray.
    assert (Hh : plain x = true).
    { cbn [forallb] in Hp. apply andb_true_iff in Hp as [Hx _]. exact Hx. }
    pose proof (join_head ext x t (93 :: rest) Hh) as Hv.
    rewrite (proj2 (skip_space _ Hv)).
    destruct (join (lit ", ") (map (dumps ext) (x :: t)) ++ 93 :: rest)
      as [|c q] eqn:Ej; [contradiction|].
    destruct Hv as (_ & -> & _). rewrite <- Ej. rewrite Hf by lia. reflexivity.
  - destruct d as [|[k x] t].
    { exists 1%nat. intros [|f'] rest Hle _; [lia|]. reflexivity. }
    cbn [plain] in Hp. apply andb_true_iff in Hp as [Hp Hd].
    assert (HF : Forall (fun kv => Decodes ext (snd kv)) ((k, x) :: t)).
    { apply Forall_forall. intros [k' y] Hy. apply (proj1 (Forall_forall _ _) IH _ Hy).
      pose proof (proj1 (forallb_forall _ _) Hp _ Hy) as H. cbv beta iota in H.
      apply andb_true_iff in H as [_ H]. exact H. }
    destruct (pairs_loop_encoded ext t k x HF Hp) as (f & q & Eq & Hf).
    exists (S f). intros [|f'] rest Hle _; [lia|].
    rewrite scan_once_S, dumps_pairs, Eq. renest. cbn [app]. unfold scan_value.
    change (123 =? 34) with false. change (is_char "{" 123) with true. cbv iota.
    unfold JSONObject. change (skip_ws (34 :: q ++ 125 :: rest)) with (34 :: q ++ 125 :: rest).
    cbv iota. change (is_char "}" 34) with false. change (34 =? 34) with true. cbv iota.
    rewrite Hf by lia. unfold dict_of_pairs. cbn [app].
    rewrite (dict_of_pairs_distinct ((k, x) :: t) []); [reflexivity|exact Hd].
Qed.

Lemma raw_decode_encoded (ext : Externals) (v : pyval) (rest : str) :
  plain v = true -> follows v rest ->
  raw_decode (dumps ext v ++ rest) = Some (v, rest).
Proof.
  intros Hp Hr. destruct (plain_decodes ext v Hp) as [f Hf].
  unfold raw_decode.
  rewrite (scan_once_budget f (budget (dumps ext v ++ rest)) _ _
             (Hf f rest (Nat.le_refl f) Hr)).
  - reflexivity.
  - discriminate.
  - unfold budget. lia.
Qed.

Lemma loads_no_bom (c : char) (s : str) :
  (c =? 65279) = false ->
  loads (c :: s) =
  match raw_decode (skip_ws (c :: s)) with
  | Some (obj, r) => match skip_ws r with [] => Some obj | _ :: _ => None end
  | None => None
  end.
Proof.
  intros Hc. unfold loads. destruct c as [|p]; [reflexivity|].
  repeat (destruct p as [p|p|]; try reflexivity); discriminate.
Qed.

Lemma loads_encoded (ext : Externals) (v : pyval) :
  plain v = true -> loads (dumps ext v) = Some v.
Proof.
  intros Hp. pose proof (dumps_head ext v [] Hp) as Hh.
  pose proof (raw_decode_encoded ext v [] Hp (fun _ => eq_refl)) as Hr.
  rewrite app_nil_r in Hh, Hr.
  destruct (dumps ext v) as [|c t]; [contradiction|].
  destruct Hh as (Hw & _ & Hb).
  rewrite (loads_no_bom _ _ Hb), (skip_ws_fix _ _ Hw), Hr. reflexivity.
Qed.

Lemma container_text (ext : Externals) (v : pyval) (records : list pyval) :
  message_records v = Some records ->
  is_number v = false /\
  exists h m l, dumps ext v = h :: m ++ [l] /\
                is_char "{" h || is_char "[" h = true /\
                isspace h = false /\ isspace l = false.
Proof.
  destruct v as [ | | | | |[|x t]|[|kv t]]; intros H; try discriminate;
    (split; [reflexivity|]).
  - exists 91, [], 93. repeat split.
  - rewrite dumps_list. exists 91, (join (lit ", ") (map (dumps ext) (x :: t))), 93.
    repeat split.
  - exists 123, [], 125. repeat split.
  - rewrite dumps_pairs.
    exists 123, (join (lit ", ") (map (dumps_item ext) (kv :: t))), 125.
    repeat split.
Qed.

(** Messages written with [json.dumps] come back: for a list or a dict
    [v] without floats, with ordinary texts and no doubled key, the text
    of [v] between prose without an opening brace or bracket and any
    trailing text gives one part for each message record of [v]. *)
Theorem encoded_messages_recovered (ext : Externals)
    (prose trailing : str) (v : pyval) (records : list pyval) :
  re_search prose = None -> plain v = true ->
  message_records v = Some records ->
  process_llm_output_to_a2ui_parts ext (prose ++ dumps ext v ++ trailing)
  = map (create_a2ui_part ext) records.
Proof.
  intros Hp Hv Hm.
  destruct (container_text ext v records Hm) as (Hn & h & m & l & E & Hb & Hh & Hl).
  assert (Hd : forall rest, raw_decode (h :: m ++ l :: rest) = Some (v, rest)).
  { intros rest.
    replace (h :: m ++ l :: rest) with (dumps ext v ++ rest) by (rewrite E; now renest).
    apply raw_decode_encoded; [exact Hv|]. intros Hx. congruence. }
  set (text := prose ++ dumps ext v ++ trailing).
  assert (Etext : text = prose ++ h :: m ++ l :: trailing).
  { unfold text. rewrite E. now renest. }
  assert (Hne : text <> []).
  { rewrite Etext. destruct prose; discriminate. }
  assert (Estrip : strip text = lstrip prose ++ h :: m ++ l :: rstrip trailing).
  { rewrite Etext. apply strip_around; assumption. }
  rewrite (process_eq ext text (List.length (lstrip prose)) Hne).
  - rewrite Estrip, skipn_length_app.
    unfold two_stage, prefix_tolerant. rewrite Hd.
    cbn [option_map fst].
    destruct v; try discriminate; unfold parts_of; rewrite Hm; reflexivity.
  - rewrite Estrip. apply re_search_app; [|exact Hb].
    apply re_search_lstrip. exact Hp.
Qed.

Lemma encoded_messages_recovered_witness :
  process_llm_output_to_a2ui_parts sample_externals
    (lit "Sure: "
     ++ dumps sample_externals
          (PDict [(lit "messages",
                   PList [PDict [(lit "id", PInt (-7))]; PStr [233; 128512]])])
     ++ lit " Done.")
  = map (create_a2ui_part sample_externals)
        [PDict [(lit "id", PInt (-7))]; PStr [233; 128512]].
Proof.
  apply (encoded_messages_recovered sample_externals (lit "Sure: ") (lit " Done.")
           (PDict [(lit "messages",
                    PList [PDict [(lit "id", PInt (-7))]; PStr [233; 128512]])])).
  - reflexivity.
  - reflexivity.
  - reflexivity.
Defined.

(** ** The JSON of the context *)

Lemma as_dict_set_keys (ext : Externals) (d : pymap) (k q : str) (v : pyval) :
  string_keys d -> str_eqb q k = false ->
  existsb (str_eqb q) (map fst (as_dict (context_set ext d (PStr k) v)))
  = existsb (str_eqb q) (map fst (as_dict d)).
Proof.
  unfold string_keys, as_dict. induction d as [|[k0 v0] d IH]; intros Hs Hq.
  - cbn [context_set map fst existsb]. rewrite Hq. reflexivity.
  - inversion Hs as [|? ? (s0 & Hs0) Hd]; subst. simpl in Hs0. subst k0.
    cbn [context_set key_eq]. destruct (str_eqb s0 k) eqn:E0.
    + reflexivity.
    + cbn [map fst existsb]. rewrite (IH Hd Hq). reflexivity.
Qed.

Lemma context_set_distinct (ext : Externals) (d : pymap) (k : str) (v : pyval) :
  string_keys d -> distinct_keys (map fst (as_dict d)) = true ->
  distinct_keys (map fst (as_dict (context_set ext d (PStr k) v))) = true.
Proof.
  induction d as [|[k0 v0] d IH]; intros Hs Hd; [reflexivity|].
  inversion Hs as [|? ? (s0 & Hs0) Hs']; subst. simpl in Hs0. subst k0.
  change (negb (existsb (str_eqb s0) (map fst (as_dict d)))
          && distinct_keys (map fst (as_dict d)) = true) in Hd.
  apply andb_true_iff in Hd as [Hn Hd].
  cbn [context_set key_eq]. destruct (str_eqb s0 k) eqn:E0.
  - change (negb (existsb (str_eqb s0) (map fst (as_dict d)))
            && distinct_keys (map fst (as_dict d)) = true).
    rewrite Hn, Hd. reflexivity.
  - change (negb (existsb (str_eqb s0)
                    (map fst (as_dict (context_set ext d (PStr k) v))))
            && distinct_keys (map fst (as_dict (context_set ext d (PStr k) v))) = true).
    rewrite (as_dict_set_keys ext d k s0 v Hs' E0), Hn, (IH Hs' Hd). reflexivity.
Qed.

Lemma context_set_plain (ext : Externals) (d : pymap) (k : str) (v : pyval) :
  plain_str k = true -> plain v = true ->
  forallb (fun kv => match kv with (k, x) => plain_str k && plain x end) (as_dict d) = true ->
  forallb (fun kv => match kv with (k, x) => plain_str k && plain x end)
    (as_dict (context_set ext d (PStr k) v)) = true.
Proof.
  intros Hk Hv. unfold as_dict. induction d as [|[k0 v0] d IH]; intros H.
  - cbn [context_set map forallb fst snd]. rewrite Hk, Hv. reflexivity.
  - cbn [map forallb fst snd] in H. apply andb_true_iff in H as [H0 H].
    apply andb_true_iff in H0 as [H0 H1].
    cbn [context_set]. destruct (key_eq ext k0 (PStr k));
      cbn [map forallb fst snd]; rewrite H0.
    + rewrite Hv, H. reflexivity.
    + rewrite H1, (IH H). reflexivity.
Qed.

Lemma plain_entry_parts (e : ContextEntry) :
  plain_entry e = true -> plain_str (key e) = true /\ plain (unwrap (value e)) = true.
Proof.
  unfold plain_entry. intros H. apply andb_true_iff in H as [Hk Hv].
  split; [exact Hk|].
  destruct (value e) as [s|[z|x]|b|p]; try discriminate; try reflexivity.
  - exact Hv.
  - cbn [unwrap plain]. unfold plain_str. rewrite !forallb_app.
    fold (plain_str p). rewrite Hv. reflexivity.
Qed.

Lemma context_mapping_plain (ext : Externals) (entries : list ContextEntry) :
  forallb plain_entry entries = true ->
  plain (PDict (as_dict (context_mapping ext entries))) = true.
Proof.
  induction entries as [|e entries IH] using rev_ind; intros H; [reflexivity|].
  rewrite forallb_app in H. apply andb_true_iff in H as [H He].
  cbn [forallb] in He. apply andb_true_iff in He as [He _].
  destruct (plain_entry_parts e He) as [Hk Hv].
  specialize (IH H). cbn [plain] in IH |- *. apply andb_true_iff in IH as [IH1 IH2].
  rewrite context_mapping_snoc.
  rewrite (context_set_plain ext _ _ _ Hk Hv IH1).
  rewrite (context_set_distinct ext _ _ _ (context_mapping_string_keys ext entries) IH2).
  reflexivity.
Qed.

Lemma dumps_dict_as_dict (ext : Externals) (d : pymap) :
  string_keys d -> dumps_dict ext d = dumps ext (PDict (as_dict d)).
Proof.
  intros Hs. destruct d as [|kv t]; [reflexivity|].
  change (as_dict (kv :: t))
    with ((match fst kv with PStr s => s | _ => [] end, snd kv) :: as_dict t).
  rewrite dumps_pairs.
  change (_ :: as_dict t) with (as_dict (kv :: t)).
  unfold dumps_dict. change (lit "{") with [123]. change (lit "}") with [125].
  cbn [app]. do 3 f_equal.
  clear - Hs. unfold string_keys, as_dict in *.
  induction Hs as [|[k x] d (s & Hk) _ IH]; [reflexivity|].
  simpl in Hk. subst k. cbn [map fst snd dumps_key dumps_item]. rewrite IH. reflexivity.
Qed.

(** The JSON text that the directive carries is read back by
    [json.loads] as the mapping of the context, when keys and values are
    ordinary texts, integers or booleans. *)
Theorem context_json_decodes (ext : Externals) (entries : list ContextEntry) :
  forallb plain_entry entries = true ->
  loads (dumps_dict ext (context_mapping ext entries))
  = Some (PDict (as_dict (context_mapping ext entries))).
Proof.
  intros H.
  rewrite (dumps_dict_as_dict ext _ (context_mapping_string_keys ext entries)).
  apply loads_encoded, context_mapping_plain, H.
Qed.

Lemma context_json_decodes_witness :
  loads (dumps_dict sample_externals
           (context_mapping sample_externals
              [{| key := lit "color"; value := literalString (lit "r`d") |};
               {| key := lit "n"; value := literalNumber (IntNumber 42) |};
               {| key := lit "color"; value := path (lit "/a/b") |}]))
  = Some (PDict [(lit "color", PStr (lit "{path: /a/b}")); (lit "n", PInt 42)]).
Proof.
  apply (context_json_decodes sample_externals
           [{| key := lit "color"; value := literalString (lit "r`d") |};
            {| key := lit "n"; value := literalNumber (IntNumber 42) |};
            {| key := lit "color"; value := path (lit "/a/b") |}]).
  reflexivity.
Defined.

(** ** A run without text *)

Lemma accumulate_silent (events : list AdkEvent) :
  Forall (fun event => event_text event = []) events -> accumulate events = [].
Proof.
  unfold accumulate. induction 1 as [|event events He _ IH]; [reflexivity|].
  cbn [flat_map]. rewrite He, IH. reflexivity.
Qed.

(** A run of the model that raises nothing and yields no text (events
    without content, without parts, or with parts whose text is missing or
    empty) completes the task with a message of no parts at all. *)
Theorem silent_run_completes_empty (ext : Externals) (self : A2UIAgentExecutor)
    (context : RequestContext) (w : World) (user_action_data : option str) :
  extraction ext context = Return user_action_data ->
  user_text context <> [] \/ user_action_data <> None ->
  let task := task_for ext context in
  let run := runner self (lit "user") (context_id context)
                    (prompt context user_action_data) in
  raised run = None ->
  Forall (fun event => event_text event = []) (yielded run) ->
  execute ext self context w
  = (Return tt,
     {| event_queue :=
          event_queue w ++ creation ext context
          ++ [StatusUpdate (task_id task) (task_context_id task) working None false;
              StatusUpdate (task_id task) (task_context_id task) completed
                (Some (new_agent_parts_message [] (task_context_id task) (task_id task)))
                true];
        activated_extensions :=
          try_activate_a2ui_extension ext context (activated_extensions w) |}).
Proof.
  intros He Hne task run Hr Hy.
  rewrite execute_result, He.
  assert (E : handled ext self context user_action_data w
              = {| event_queue :=
                     event_queue w ++ creation ext context
                     ++ [StatusUpdate (task_id task) (task_context_id task) working None false;
                         StatusUpdate (task_id task) (task_context_id task) completed
                           (Some (new_agent_parts_message []
                                    (task_context_id task) (task_id task)))
                           true];
                   activated_extensions :=
                     try_activate_a2ui_extension ext context (activated_extensions w) |}).
  { unfold handled, terminal_update. fold task. fold run.
    rewrite Hr, (accumulate_silent _ Hy). reflexivity. }
  rewrite E.
  destruct (user_text context), user_action_data; try reflexivity.
  destruct Hne as [H|H]; contradiction H; reflexivity.
Qed.

Lemma silent_run_completes_empty_witness :
  execute sample_externals
    {| runner := fun _ _ _ =>
         {| yielded := [{| content := None |};
                        {| content := Some {| role := lit "model";
                                              content_parts := None |} |};
                        {| content := Some {| role := lit "model";
                                              content_parts :=
                                                Some [{| text := None |};
                                                      {| text := Some [] |}] |} |}];
            raised := None |} |}
    {| user_input := Some (lit "hi"); message := None;
       current_task := Some {| task_id := lit "t"; task_context_id := lit "c" |};
       context_id := lit "ctx"; requested_extensions := [] |}
    fresh_world
  = (Return tt,
     {| event_queue :=
          [StatusUpdate (lit "t") (lit "c") working None false;
           StatusUpdate (lit "t") (lit "c") completed
             (Some (new_agent_parts_message [] (lit "c") (lit "t"))) true];
        activated_extensions := [] |}).
Proof.
  apply (silent_run_completes_empty sample_externals
    {| runner := fun _ _ _ =>
         {| yielded := [{| content := None |};
                        {| content := Some {| role := lit "model";
                                              content_parts := None |} |};
                        {| content := Some {| role := lit "model";
                                              content_parts :=
                                                Some [{| text := None |};
                                                      {| text := Some [] |}] |} |}];
            raised := None |} |}
    {| user_input := Some (lit "hi"); message := None;
       current_task := Some {| task_id := lit "t"; task_context_id := lit "c" |};
       context_id := lit "ctx"; requested_extensions := [] |}
    fresh_world None).
  - reflexivity.
  - left. discriminate.
  - reflexivity.
  - repeat constructor.
Defined.
